(** * zdx-world: the link dashboard server, its log viewer and its GitHub sync

    A shallow embedding of [app.js], [sync.js] and of the two browser scripts
    that [build.sh] writes to [public/index.html] and
    [public/logs/index.html].

    Conventions of the embedding.
    - A JavaScript string is a [string]: a sequence of 8-bit code units
      (the Latin-1 fragment of UTF-16).  File contents are texts of the same
      kind, so writing a string with [fs.writeFileSync] and reading it back
      with the ['utf8'] encoding is the identity on them.  The messages of
      the sources that lie outside that fragment are constants that no
      function looks into; they are kept as the bytes of their UTF-8 form.
    - A JavaScript number is a [Z]: the integer fragment of the doubles.  The
      model is exact on the safe integers ([Number.MAX_SAFE_INTEGER] and
      below in absolute value), which the decimal printer and reader below
      treat the way [Number::toString] and [JSON.parse] do.
    - [JSON.parse] has three outcomes: a value of the embedding, the
      [SyntaxError] of a text that is no JSON text, and [Beyond] for a JSON
      text that leaves the two fragments above.  The embedding carries the
      value of such a text on by the text that denotes it.
    - The file system is a finite map from paths to nodes; every [fs] call of
      the source becomes a function on it that may fail, and a handler
      returns, next to its response, the list of [fs] calls it performed.
    - What the libraries and the host decide is a parameter: the body parser
      and the static file server of Express, the collation behind
      [localeCompare], the answers of the remote API, the clock. *)

From Stdlib Require Import ZArith String Ascii List Lia Bool.
From Stdlib Require Import Permutation Sorted DecimalString DecimalN DecimalFacts.
From stdpp Require Import gmap strings list.
Import ListNotations.

Open Scope string_scope.
Open Scope Z_scope.
Open Scope list_scope.

(* ===================================================================== *)
(** * Part I: the embedding                                               *)
(* ===================================================================== *)

(** ** JavaScript primitives used by the sources *)

Module JS.

Definition code (c : ascii) : N := N_of_ascii c.

Definition newline : ascii := ascii_of_N 10.
Definition newline_s : string := String newline EmptyString.

Definition is_digit (c : ascii) : bool :=
  (N.leb 48 (code c) && N.leb (code c) 57)%bool.

(** [\w] of a regular expression without the [i] and [u] flags. *)
Definition is_word (c : ascii) : bool :=
  (is_digit c
   || (N.leb 65 (code c) && N.leb (code c) 90)
   || (N.leb 97 (code c) && N.leb (code c) 122)
   || N.eqb (code c) 95)%bool.

(** White space and line terminators, as [String.prototype.trim] strips
    them (restricted to the 8-bit code units). *)
Definition is_space (c : ascii) : bool :=
  let n := code c in
  (N.eqb n 9 || N.eqb n 10 || N.eqb n 11 || N.eqb n 12 || N.eqb n 13
   || N.eqb n 32 || N.eqb n 160)%bool.

Fixpoint chars (s : string) : list ascii :=
  match s with
  | EmptyString => []
  | String c r => c :: chars r
  end.

Fixpoint rev_string (acc : list ascii) (out : string) : string :=
  match acc with
  | [] => out
  | c :: r => rev_string r (String c out)
  end.

(** [s.startsWith(p)] *)
Definition startsWith (p s : string) : bool := String.prefix p s.

(** [s.endsWith(p)] *)
Definition endsWith (p s : string) : bool :=
  let n := String.length s in
  let k := String.length p in
  if (k <=? n)%nat then String.eqb (String.substring (n - k) k s) p else false.

(** [s.includes(p)] *)
Definition includes (p s : string) : bool :=
  match String.index 0 p s with
  | Some _ => true
  | None => false
  end.

(** [s.replace(p, r)] with a string pattern: only the first occurrence is
    replaced.  (The sources only pass replacements without [$].) *)
Definition replace (p r s : string) : string :=
  match String.index 0 p s with
  | Some i =>
      String.substring 0 i s +:+ r
      +:+ String.substring (i + String.length p)
                          (String.length s - (i + String.length p)) s
  | None => s
  end.

(** [s.split(sep)] for a one-character separator: never the empty list. *)
Fixpoint split_go (sep : ascii) (s : string) (cur : list ascii) : list string :=
  match s with
  | EmptyString => [rev_string cur EmptyString]
  | String c r =>
      if Ascii.eqb c sep
      then rev_string cur EmptyString :: split_go sep r []
      else split_go sep r (c :: cur)
  end.

Definition split (sep : ascii) (s : string) : list string := split_go sep s [].

(** Truthiness of [s.trim()]: the trimmed string is not empty. *)
Definition trim_truthy (s : string) : bool :=
  existsb (fun c => negb (is_space c)) (chars s).

(** [String(n)] for a non-negative integer, and for an integer. *)
Definition nat_toString (n : N) : string :=
  NilZero.string_of_uint (N.to_uint n).

Definition Number_toString (z : Z) : string :=
  match z with
  | Z0 => "0"
  | Zpos p => nat_toString (Npos p)
  | Zneg p => String "-" (nat_toString (Npos p))
  end.

(** [s.padStart(2, '0')] *)
Definition padStart2 (s : string) : string :=
  match String.length s with
  | O => "00"
  | S O => String "0" s
  | _ => s
  end.

(** [Math.max(x, ...xs)], for the calls that pass at least one argument. *)
Definition Math_max (x : Z) (xs : list Z) : Z := fold_left Z.max xs x.

Definition quote : ascii := ascii_of_N 34.
Definition quote_s : string := String quote EmptyString.

(** [xs.sort(cmp)]: the sort of [Array.prototype.sort] is stable; with a
    consistent comparator its result is the stable sorted arrangement,
    computed here by insertion from the right. *)
Section Sort.
Context {A : Type} (cmp : A -> A -> Z).

Fixpoint sort_insert (x : A) (l : list A) : list A :=
  match l with
  | [] => [x]
  | y :: r => if cmp x y <=? 0 then x :: y :: r else y :: sort_insert x r
  end.

Definition sort (l : list A) : list A := fold_right sort_insert [] l.
End Sort.

(** *** Regular expressions: the fragment the log viewer uses, matched by
    backtracking with greedy quantifiers. *)
Inductive regex : Type :=
| ReDigit                                  (* \d *)
| ReChar (c : ascii)                       (* a literal character *)
| ReWordBoundary                           (* \b *)
| ReSeq (r1 r2 : regex)
| ReRepeat (r : regex) (lo hi : nat).      (* r{lo,hi} *)

(** The matcher threads the character before the current position (for
    [\b]) and the characters consumed so far, most recent first. *)
Definition at_boundary (prev : option ascii) (s : string) : bool :=
  let before := match prev with Some c => is_word c | None => false end in
  let after := match s with String c _ => is_word c | EmptyString => false end in
  xorb before after.

Definition cont : Type := option ascii -> string -> list ascii -> option (list ascii).

Fixpoint rmatch (r : regex) (prev : option ascii) (s : string)
         (acc : list ascii) (k : cont) {struct r} : option (list ascii) :=
  match r with
  | ReDigit =>
      match s with
      | String c rest => if is_digit c then k (Some c) rest (c :: acc) else None
      | EmptyString => None
      end
  | ReChar a =>
      match s with
      | String c rest => if Ascii.eqb c a then k (Some c) rest (c :: acc) else None
      | EmptyString => None
      end
  | ReWordBoundary => if at_boundary prev s then k prev s acc else None
  | ReSeq r1 r2 =>
      rmatch r1 prev s acc (fun p s' acc' => rmatch r2 p s' acc' k)
  | ReRepeat r' lo hi =>
      (fix rep (lo hi : nat) (prev : option ascii) (s : string)
           (acc : list ascii) {struct hi} : option (list ascii) :=
         match hi with
         | O => match lo with O => k prev s acc | S _ => None end
         | S hi' =>
             match rmatch r' prev s acc
                     (fun p s' acc' => rep (Nat.pred lo) hi' p s' acc') with
             | Some m => Some m
             | None => match lo with O => k prev s acc | S _ => None end
             end
         end) lo hi prev s acc
  end.

Definition match_at (r : regex) (prev : option ascii) (s : string) : option string :=
  match rmatch r prev s [] (fun _ _ acc => Some acc) with
  | Some acc => Some (rev_string acc EmptyString)
  | None => None
  end.

(** The leftmost match: what [s.match(/r/g)[0]] is when [s.match] is not
    [null]. *)
Fixpoint first_match_from (r : regex) (prev : option ascii) (s : string) : option string :=
  match match_at r prev s with
  | Some m => Some m
  | None =>
      match s with
      | EmptyString => None
      | String c rest => first_match_from r (Some c) rest
      end
  end.

Definition first_match (r : regex) (s : string) : option string :=
  first_match_from r None s.

End JS.

(** ** JSON values, [JSON.stringify(v, null, 2)] and [JSON.parse] *)

Module Json.

(** An object is the list of its properties in property order. *)
#[local] Unset Elimination Schemes.
Inductive value : Type :=
| Null
| Bool (b : bool)
| Num (z : Z)
| Str (s : string)
| Arr (vs : list value)
| Obj (ms : list (string * value)).
#[local] Set Elimination Schemes.

(** Induction on values, through the lists of arrays and objects. *)
Section ValueInd.
Variable P : value -> Prop.
Hypothesis HNull : P Null.
Hypothesis HBool : forall b, P (Bool b).
Hypothesis HNum : forall z, P (Num z).
Hypothesis HStr : forall s, P (Str s).
Hypothesis HArr : forall vs, Forall P vs -> P (Arr vs).
Hypothesis HObj : forall ms, Forall (fun kv => P (snd kv)) ms -> P (Obj ms).

Fixpoint value_ind (v : value) : P v :=
  match v with
  | Null => HNull
  | Bool b => HBool b
  | Num z => HNum z
  | Str s => HStr s
  | Arr vs =>
      HArr vs ((fix all (l : list value) : Forall P l :=
                  match l with
                  | [] => List.Forall_nil P
                  | x :: r => List.Forall_cons P x r (value_ind x) (all r)
                  end) vs)
  | Obj ms =>
      HObj ms ((fix all (l : list (string * value))
                 : Forall (fun kv => P (snd kv)) l :=
                  match l with
                  | [] => List.Forall_nil _
                  | x :: r => List.Forall_cons _ x r (value_ind (snd x)) (all r)
                  end) ms)
  end.
End ValueInd.

(** *** Property order of an ordinary object

    [array_index k] is [Some n] when [k] is the canonical decimal form of
    an integer [n] below [2^32 - 1].  Such keys come first, in ascending
    order; the others follow in the order of their creation. *)
Definition array_index (k : string) : option N :=
  match NilEmpty.uint_of_string k with
  | Some d =>
      let n := N.of_uint d in
      if (String.eqb (JS.nat_toString n) k && N.ltb n 4294967295)%bool
      then Some n else None
  | None => None
  end.

Definition has_key (k : string) (o : list (string * value)) : bool :=
  existsb (fun kv => String.eqb (fst kv) k) o.

Fixpoint set_existing (k : string) (v : value) (o : list (string * value))
  : list (string * value) :=
  match o with
  | [] => []
  | (k', v') :: r =>
      if String.eqb k' k then (k', v) :: r else (k', v') :: set_existing k v r
  end.

Fixpoint insert_index (n : N) (k : string) (v : value) (o : list (string * value))
  : list (string * value) :=
  match o with
  | [] => [(k, v)]
  | (k', v') :: r =>
      match array_index k' with
      | Some m => if N.ltb m n then (k', v') :: insert_index n k v r
                  else (k, v) :: o
      | None => (k, v) :: o
      end
  end.

(** [CreateDataProperty(o, k, v)] *)
Definition obj_set (k : string) (v : value) (o : list (string * value))
  : list (string * value) :=
  if has_key k o then set_existing k v o
  else match array_index k with
       | Some n => insert_index n k v o
       | None => o ++ [(k, v)]
       end.

Definition obj_of_entries (kvs : list (string * value)) : list (string * value) :=
  fold_left (fun o kv => obj_set (fst kv) (snd kv) o) kvs [].

(** Truthiness of a value, and the value of its property [k] ([None] is
    [undefined]; the keys the sources read are never properties of a
    prototype). *)
Definition truthy (v : value) : bool :=
  match v with
  | Null => false
  | Bool b => b
  | Num z => negb (z =? 0)
  | Str x => negb (String.eqb x "")
  | Arr _ => true
  | Obj _ => true
  end.

Definition get (k : string) (v : value) : option value :=
  match v with
  | Obj ms => snd <$> find (fun kv => String.eqb (fst kv) k) ms
  | _ => None
  end.

(** *** [QuoteJSONString] *)
Definition backslash : ascii := ascii_of_N 92.

Definition hex_digit (n : N) : ascii :=
  if N.ltb n 10 then ascii_of_N (48 + n) else ascii_of_N (87 + n).

Definition escape2 (c : ascii) : string := String backslash (String c EmptyString).

Definition quote_char (c : ascii) : string :=
  let n := JS.code c in
  if N.eqb n 8 then escape2 "b"
  else if N.eqb n 9 then escape2 "t"
  else if N.eqb n 10 then escape2 "n"
  else if N.eqb n 12 then escape2 "f"
  else if N.eqb n 13 then escape2 "r"
  else if N.eqb n 34 then escape2 JS.quote
  else if N.eqb n 92 then escape2 backslash
  else if N.ltb n 32
       then String backslash
              (String "u" (String "0" (String "0"
                 (String (hex_digit (N.div n 16))
                    (String (hex_digit (N.modulo n 16)) EmptyString)))))
       else String c EmptyString.

Fixpoint quote_chars (s : string) : string :=
  match s with
  | EmptyString => JS.quote_s
  | String c r => quote_char c +:+ quote_chars r
  end.

Definition quote (s : string) : string := String JS.quote (quote_chars s).

(** *** [SerializeJSONProperty] with the gap of two spaces *)
Definition gap : string := "  ".

Fixpoint serialize (indent : string) (v : value) {struct v} : string :=
  match v with
  | Null => "null"
  | Bool true => "true"
  | Bool false => "false"
  | Num z => JS.Number_toString z
  | Str s => quote s
  | Arr [] => "[]"
  | Arr vs =>
      let stepback := indent in
      let indent := indent +:+ gap in
      let separator := "," +:+ JS.newline_s +:+ indent in
      "[" +:+ JS.newline_s +:+ indent
      +:+ String.concat separator (map (serialize indent) vs)
      +:+ JS.newline_s +:+ stepback +:+ "]"
  | Obj [] => "{}"
  | Obj ms =>
      let stepback := indent in
      let indent := indent +:+ gap in
      let separator := "," +:+ JS.newline_s +:+ indent in
      "{" +:+ JS.newline_s +:+ indent
      +:+ String.concat separator
            (map (fun kv => quote (fst kv) +:+ ": " +:+ serialize indent (snd kv)) ms)
      +:+ JS.newline_s +:+ stepback +:+ "}"
  end.

(** [JSON.stringify(v, null, 2)] *)
Definition stringify (v : value) : string := serialize "" v.

(** *** [JSON.parse]: a recursive-descent reader of the JSON grammar

    Every reader returns the value read and the text that follows it.
    [None] says that the text has no value in the embedding: it is no JSON
    text, or it holds one of the two kinds of token whose value the
    embedding cannot express, a number with a fraction or an exponent and
    a [\u] escape above [\u00ff].  The recogniser that follows the readers
    tells the two cases apart. *)
Definition is_ws (c : ascii) : bool :=
  let n := JS.code c in (N.eqb n 9 || N.eqb n 10 || N.eqb n 13 || N.eqb n 32)%bool.

Fixpoint skip_ws (s : string) : string :=
  match s with
  | EmptyString => EmptyString
  | String c r => if is_ws c then skip_ws r else s
  end.

Fixpoint expect (lit s : string) : option string :=
  match lit with
  | EmptyString => Some s
  | String a lit' =>
      match s with
      | String c r => if Ascii.eqb c a then expect lit' r else None
      | EmptyString => None
      end
  end.

Definition hex_value (c : ascii) : option N :=
  let n := JS.code c in
  if JS.is_digit c then Some (n - 48)%N
  else if (N.leb 97 n && N.leb n 102)%bool then Some (n - 87)%N
  else if (N.leb 65 n && N.leb n 70)%bool then Some (n - 55)%N
  else None.

Definition hex4 (a b c d : ascii) : option N :=
  match hex_value a, hex_value b, hex_value c, hex_value d with
  | Some x, Some y, Some z, Some w => Some (((x * 16 + y) * 16 + z) * 16 + w)%N
  | _, _, _, _ => None
  end.

(** The characters of a string token, after its opening quote. *)
Fixpoint read_chars (s : string) (acc : list ascii) {struct s} : option (string * string) :=
  match s with
  | EmptyString => None
  | String c r =>
      if Ascii.eqb c JS.quote then Some (JS.rev_string acc EmptyString, r)
      else if Ascii.eqb c backslash then
        match r with
        | EmptyString => None
        | String e r1 =>
            if Ascii.eqb e JS.quote then read_chars r1 (JS.quote :: acc)
            else if Ascii.eqb e backslash then read_chars r1 (backslash :: acc)
            else if Ascii.eqb e "/" then read_chars r1 ("/"%char :: acc)
            else if Ascii.eqb e "b" then read_chars r1 (ascii_of_N 8 :: acc)
            else if Ascii.eqb e "f" then read_chars r1 (ascii_of_N 12 :: acc)
            else if Ascii.eqb e "n" then read_chars r1 (ascii_of_N 10 :: acc)
            else if Ascii.eqb e "r" then read_chars r1 (ascii_of_N 13 :: acc)
            else if Ascii.eqb e "t" then read_chars r1 (ascii_of_N 9 :: acc)
            else if Ascii.eqb e "u" then
              match r1 with
              | String h1 (String h2 (String h3 (String h4 r2))) =>
                  match hex4 h1 h2 h3 h4 with
                  | Some n => if N.ltb n 256 then read_chars r2 (ascii_of_N n :: acc)
                              else None
                  | None => None
                  end
              | _ => None
              end
            else None
        end
      else if N.ltb (JS.code c) 32 then None
      else read_chars r (c :: acc)
  end.

Fixpoint read_digits (s : string) : string * string :=
  match s with
  | EmptyString => (EmptyString, EmptyString)
  | String c r =>
      if JS.is_digit c
      then let (ds, rest) := read_digits r in (String c ds, rest)
      else (EmptyString, s)
  end.

Definition starts_fraction (s : string) : bool :=
  match s with
  | String c _ => (Ascii.eqb c "." || Ascii.eqb c "e" || Ascii.eqb c "E")%bool
  | EmptyString => false
  end.

(** The digits of a number token, after its sign: ["0"], or digits that do
    not begin with ["0"]; that is, the decimal form of their value. *)
Definition read_natural (s : string) : option (N * string) :=
  let (ds, rest) := read_digits s in
  match NilEmpty.uint_of_string ds with
  | Some d =>
      let n := N.of_uint d in
      if negb (String.eqb (JS.nat_toString n) ds) then None
      else if starts_fraction rest then None
      else Some (n, rest)
  | None => None
  end.

Definition read_number (s : string) : option (value * string) :=
  match s with
  | EmptyString => None
  | String c r =>
      if Ascii.eqb c "-" then
        match read_natural r with
        | Some (n, rest) => Some (Num (- Z.of_N n), rest)
        | None => None
        end
      else
        match read_natural s with
        | Some (n, rest) => Some (Num (Z.of_N n), rest)
        | None => None
        end
  end.

(** Skip white space, then expect the character [c]. *)
Definition after (c : ascii) (s : string) : option string :=
  match skip_ws s with
  | String c' r => if Ascii.eqb c' c then Some r else None
  | EmptyString => None
  end.

Fixpoint read_value (fuel : nat) (s : string) {struct fuel} : option (value * string) :=
  match fuel with
  | O => None
  | S f =>
      match skip_ws s with
      | EmptyString => None
      | String c r =>
          if Ascii.eqb c "n" then
            match expect "ull" r with Some r' => Some (Null, r') | None => None end
          else if Ascii.eqb c "t" then
            match expect "rue" r with Some r' => Some (Bool true, r') | None => None end
          else if Ascii.eqb c "f" then
            match expect "alse" r with Some r' => Some (Bool false, r') | None => None end
          else if Ascii.eqb c JS.quote then
            match read_chars r [] with
            | Some (x, r') => Some (Str x, r')
            | None => None
            end
          else if Ascii.eqb c "[" then
            match after "]" r with
            | Some r' => Some (Arr [], r')
            | None =>
                match read_elements f r with
                | Some (vs, r') => Some (Arr vs, r')
                | None => None
                end
            end
          else if Ascii.eqb c "{" then
            match after "}" r with
            | Some r' => Some (Obj [], r')
            | None =>
                match read_members f r with
                | Some (kvs, r') => Some (Obj (obj_of_entries kvs), r')
                | None => None
                end
            end
          else read_number (String c r)
      end
  end

(** The elements of a non-empty array, up to and including its [']']. *)
with read_elements (fuel : nat) (s : string) {struct fuel}
     : option (list value * string) :=
  match fuel with
  | O => None
  | S f =>
      match read_value f s with
      | Some (v, r) =>
          match after "," r with
          | Some r' =>
              match read_elements f r' with
              | Some (vs, r2) => Some (v :: vs, r2)
              | None => None
              end
          | None =>
              match after "]" r with
              | Some r' => Some ([v], r')
              | None => None
              end
          end
      | None => None
      end
  end

(** The members of a non-empty object, up to and including its ['}']. *)
with read_members (fuel : nat) (s : string) {struct fuel}
     : option (list (string * value) * string) :=
  match fuel with
  | O => None
  | S f =>
      match after JS.quote s with
      | Some r =>
          match read_chars r [] with
          | Some (k, r1) =>
              match after ":" r1 with
              | Some r2 =>
                  match read_value f r2 with
                  | Some (v, r3) =>
                      match after "," r3 with
                      | Some r4 =>
                          match read_members f r4 with
                          | Some (kvs, r5) => Some ((k, v) :: kvs, r5)
                          | None => None
                          end
                      | None =>
                          match after "}" r3 with
                          | Some r4 => Some ([(k, v)], r4)
                          | None => None
                          end
                      end
                  | None => None
                  end
              | None => None
              end
          | None => None
          end
      | None => None
      end
  end.

(** One value, then only white space. *)
Definition read (text : string) : option value :=
  match read_value (S (String.length text)) text with
  | Some (v, rest) =>
      match skip_ws rest with
      | EmptyString => Some v
      | String _ _ => None
      end
  | None => None
  end.

(** *** The JSON grammar, in full

    The recogniser follows the readers token by token and builds no value:
    it accepts every number of the grammar and every [\u] escape.  Each
    function returns the text that follows what it has accepted. *)
Definition is_hex (c : ascii) : bool :=
  match hex_value c with
  | Some _ => true
  | None => false
  end.

(** The characters of a string token, after its opening quote. *)
Fixpoint skip_chars (s : string) {struct s} : option string :=
  match s with
  | EmptyString => None
  | String c r =>
      if Ascii.eqb c JS.quote then Some r
      else if Ascii.eqb c backslash then
        match r with
        | EmptyString => None
        | String e r1 =>
            if (Ascii.eqb e JS.quote || Ascii.eqb e backslash || Ascii.eqb e "/"
                || Ascii.eqb e "b" || Ascii.eqb e "f" || Ascii.eqb e "n"
                || Ascii.eqb e "r" || Ascii.eqb e "t")%bool
            then skip_chars r1
            else if Ascii.eqb e "u" then
              match r1 with
              | String h1 (String h2 (String h3 (String h4 r2))) =>
                  if (is_hex h1 && is_hex h2 && is_hex h3 && is_hex h4)%bool
                  then skip_chars r2 else None
              | _ => None
              end
            else None
        end
      else if N.ltb (JS.code c) 32 then None
      else skip_chars r
  end.

(** One digit or more. *)
Definition skip_digits (s : string) : option string :=
  match read_digits s with
  | (EmptyString, _) => None
  | (String _ _, rest) => Some rest
  end.

(** [0], or digits that do not begin with [0]. *)
Definition skip_int (s : string) : option string :=
  match s with
  | String c r => if Ascii.eqb c "0" then Some r else skip_digits s
  | EmptyString => None
  end.

Definition skip_fraction (s : string) : option string :=
  match s with
  | String c r => if Ascii.eqb c "." then skip_digits r else Some s
  | EmptyString => Some s
  end.

Definition skip_exponent (s : string) : option string :=
  match s with
  | String c r =>
      if (Ascii.eqb c "e" || Ascii.eqb c "E")%bool then
        match r with
        | String sign r' =>
            if (Ascii.eqb sign "+" || Ascii.eqb sign "-")%bool
            then skip_digits r' else skip_digits r
        | EmptyString => None
        end
      else Some s
  | EmptyString => Some s
  end.

(** A number token: an optional [-], the integer part, an optional
    fraction, an optional exponent. *)
Definition skip_number (s : string) : option string :=
  let unsigned :=
    match s with
    | String c r => if Ascii.eqb c "-" then r else s
    | EmptyString => s
    end in
  match skip_int unsigned with
  | Some r1 =>
      match skip_fraction r1 with
      | Some r2 => skip_exponent r2
      | None => None
      end
  | None => None
  end.

Fixpoint skip_value (fuel : nat) (s : string) {struct fuel} : option string :=
  match fuel with
  | O => None
  | S f =>
      match skip_ws s with
      | EmptyString => None
      | String c r =>
          if Ascii.eqb c "n" then expect "ull" r
          else if Ascii.eqb c "t" then expect "rue" r
          else if Ascii.eqb c "f" then expect "alse" r
          else if Ascii.eqb c JS.quote then skip_chars r
          else if Ascii.eqb c "[" then
            match after "]" r with
            | Some r' => Some r'
            | None => skip_elements f r
            end
          else if Ascii.eqb c "{" then
            match after "}" r with
            | Some r' => Some r'
            | None => skip_members f r
            end
          else skip_number (String c r)
      end
  end

(** The elements of a non-empty array, up to and including its [']']. *)
with skip_elements (fuel : nat) (s : string) {struct fuel} : option string :=
  match fuel with
  | O => None
  | S f =>
      match skip_value f s with
      | Some r =>
          match after "," r with
          | Some r' => skip_elements f r'
          | None => after "]" r
          end
      | None => None
      end
  end

(** The members of a non-empty object, up to and including its ['}']. *)
with skip_members (fuel : nat) (s : string) {struct fuel} : option string :=
  match fuel with
  | O => None
  | S f =>
      match after JS.quote s with
      | Some r =>
          match skip_chars r with
          | Some r1 =>
              match after ":" r1 with
              | Some r2 =>
                  match skip_value f r2 with
                  | Some r3 =>
                      match after "," r3 with
                      | Some r4 => skip_members f r4
                      | None => after "}" r3
                      end
                  | None => None
                  end
              | None => None
              end
          | None => None
          end
      | None => None
      end
  end.

(** The text is a JSON text: one value of the grammar, then only white
    space.  Every nesting level and every element takes two characters at
    least, so the length of the text is fuel enough. *)
Definition is_json (text : string) : bool :=
  match skip_value (S (String.length text)) text with
  | Some rest =>
      match skip_ws rest with
      | EmptyString => true
      | String _ _ => false
      end
  | None => false
  end.

(** The numbers of [v] are safe integers: the integers that the source,
    which computes with doubles, has as they are written. *)
Definition safe_integer (z : Z) : bool :=
  (Z.leb (- 9007199254740991) z && Z.leb z 9007199254740991)%bool.

Fixpoint exact (v : value) : bool :=
  match v with
  | Null | Bool _ | Str _ => true
  | Num z => safe_integer z
  | Arr vs => forallb exact vs
  | Obj ms => forallb (fun kv => exact (snd kv)) ms
  end.

(** [JSON.parse(text)]: the value of the text; the [SyntaxError] that the
    source throws for a text that is no JSON text; or [Beyond], for a JSON
    text that the embedding does not evaluate: it holds a number with a
    fraction or an exponent, or a [\u] escape above [\u00ff], or its
    value holds an integer that is not safe.  What the sources do with the
    value of such a text is told by naming the text. *)
Inductive parsed : Type :=
| Parsed (v : value)
| SyntaxError
| Beyond.

Definition parse (text : string) : parsed :=
  match read text with
  | Some v => if exact v then Parsed v else Beyond
  | None => if is_json text then Beyond else SyntaxError
  end.

(** *** The values of the embedding that stand for JavaScript values

    A number is a safe integer; the keys of an object are distinct and in
    property order: a key that is an array index has only smaller array
    indices before it. *)
Definition may_precede (k k' : string) : bool :=
  match array_index k' with
  | None => true
  | Some n =>
      match array_index k with
      | Some m => N.ltb m n
      | None => false
      end
  end.

Fixpoint keys_in_order (ks : list string) : bool :=
  match ks with
  | [] => true
  | k :: r =>
      (forallb (fun k' => negb (String.eqb k k') && may_precede k k') r
       && keys_in_order r)%bool
  end.

Fixpoint wf (v : value) : bool :=
  match v with
  | Null | Bool _ | Str _ => true
  | Num z => safe_integer z
  | Arr vs => forallb wf vs
  | Obj ms => (keys_in_order (map fst ms) && forallb (fun kv => wf (snd kv)) ms)%bool
  end.

End Json.


(** ** The dashboard page ([public/index.html], written by [build.sh]) *)

Module Dashboard.

Record card : Type := Card { id : Z; title : string; url : string; color : string }.

(** The ids of the cards are safe integers. *)
Definition safe_ids (cards : list card) : Prop :=
  Forall (fun k => Json.safe_integer (id k) = true) cards.

(** [cards.length ? Math.max(...cards.map(c => c.id)) + 1 : 1].  The page
    computes with doubles: the sum is the one written here as long as the
    ids are safe integers, the range to which the properties of [next_id]
    on given ids are bound. *)
Definition next_id (cards : list card) : Z :=
  match map id cards with
  | [] => 1
  | x :: xs => JS.Math_max x xs + 1
  end.

(** The click handler of [saveCardBtn], after the cards were fetched.  The
    hidden field [cardId] is empty when a card is added ([None]) and holds
    the id of the card that is edited otherwise.  [None] as a result: the
    handler returned after its alert and posted nothing. *)
Definition saveCard (cardId : option Z) (t u c : string) (cards : list card)
  : option (list card) :=
  if (String.eqb t "" || String.eqb u "")%bool then None
  else
    match cardId with
    | Some i =>
        Some (map (fun k => if id k =? i then Card (id k) t u c else k) cards)
    | None => Some (cards ++ [Card (next_id cards) t u c])
    end.

(** [deleteCard(id)], after the cards were fetched:
    [cards.filter(c => c.id !== id)]. *)
Definition deleteCard (i : Z) (cards : list card) : list card :=
  List.filter (fun k => negb (id k =? i)) cards.

(** [saveCurrentOrder]: what the page shows for one card (the text of its
    title, the [href] of its link and the color of its left border), and
    the cards built from the cards shown, the one at [index] with the id
    [index + 1]. *)
Record shown : Type :=
  Shown { shown_title : string; shown_href : string; shown_color : string }.

Fixpoint number_from (index : Z) (els : list shown) : list card :=
  match els with
  | [] => []
  | el :: r =>
      Card (index + 1) (shown_title el) (shown_href el) (shown_color el)
      :: number_from (index + 1) r
  end.

Definition saveCurrentOrder (els : list shown) : list card := number_from 0 els.

(** A card as [saveCards] sends it and as the server stores it, and the
    body of the request of [saveCards]. *)
Definition card_json (k : card) : Json.value :=
  Json.Obj [("id", Json.Num (id k)); ("title", Json.Str (title k));
            ("url", Json.Str (url k)); ("color", Json.Str (color k))].

Definition saveCards_body (cards : list card) : Json.value :=
  Json.Arr (map card_json cards).

(** The cards that [renderCards] finds in the answer of [GET /api/cards]:
    it reads [card.id], [card.title], [card.url] and [card.color]. *)
Definition card_of_json (v : Json.value) : option card :=
  match Json.get "id" v, Json.get "title" v, Json.get "url" v, Json.get "color" v with
  | Some (Json.Num i), Some (Json.Str t), Some (Json.Str u), Some (Json.Str c) =>
      Some (Card i t u c)
  | _, _, _, _ => None
  end.

Fixpoint cards_of_list (vs : list Json.value) : option (list card) :=
  match vs with
  | [] => Some []
  | v :: r =>
      match card_of_json v, cards_of_list r with
      | Some k, Some ks => Some (k :: ks)
      | _, _ => None
      end
  end.

Definition cards_of_json (v : Json.value) : option (list card) :=
  match v with
  | Json.Arr vs => cards_of_list vs
  | _ => None
  end.

End Dashboard.

(** ** The log viewer page ([public/logs/index.html], written by [build.sh]) *)

Module LogViewer.

(** [/\b(?:\d{1,3}\.){3}\d{1,3}\b/g] *)
Definition ipRegex : JS.regex :=
  JS.ReSeq JS.ReWordBoundary
    (JS.ReSeq (JS.ReRepeat (JS.ReSeq (JS.ReRepeat JS.ReDigit 1 3) (JS.ReChar ".")) 3 3)
       (JS.ReSeq (JS.ReRepeat JS.ReDigit 1 3) JS.ReWordBoundary)).

(** [ipStats]; [ipCounts] is an object used as a map, kept as the list of
    its entries in property order (an IP token is never an array index, so
    this is the order of first insertion). *)
Record stats : Type :=
  Stats { total : nat; unique : nat; ipCounts : list (string * Z) }.

(** [ipCounts[ip] = (ipCounts[ip] || 0) + 1] *)
Fixpoint bump (ip : string) (counts : list (string * Z)) : list (string * Z) :=
  match counts with
  | [] => [(ip, 0 + 1)]
  | (k, v) :: r =>
      if String.eqb k ip then (k, v + 1) :: r else (k, v) :: bump ip r
  end.

Definition parseAccessLogStats (logText : string) : stats :=
  let lines := List.filter JS.trim_truthy (JS.split JS.newline logText) in
  let counts :=
    fold_left (fun acc line =>
                 match JS.first_match ipRegex line with
                 | Some ip => bump ip acc
                 | None => acc
                 end) lines [] in
  Stats (List.length lines) (List.length counts) counts.

(** [sortedIps] of [updateStatsPanel]:
    [Object.entries(ipStats.ipCounts).sort((a, b) => b[1] - a[1]).slice(0, 8)] *)
Definition sortedIps (st : stats) : list (string * Z) :=
  firstn 8 (JS.sort (fun a b => snd b - snd a) (ipCounts st)).

Definition topIps (st : stats) : list string := map fst (sortedIps st).

(** [filterLogsByIp]: the lines kept for a non-empty filter. *)
Definition filteredLines (rawLogData currentFilterIp : string) : list string :=
  List.filter (JS.includes currentFilterIp) (JS.split JS.newline rawLogData).

Definition example_log : string :=
  "[2026/1/8 10:00:00] [IP: 1.2.3.4] [GET] /x - " +:+ JS.quote_s +:+ "UA" +:+ JS.quote_s
    +:+ JS.newline_s
  +:+ "[2026/1/8 10:00:01] [IP: 1.2.3.4] [GET] /y - " +:+ JS.quote_s +:+ "UA" +:+ JS.quote_s
    +:+ JS.newline_s
  +:+ "[2026/1/8 10:00:02] [IP: 5.6.7.8] [GET] /z - " +:+ JS.quote_s +:+ "UA" +:+ JS.quote_s
    +:+ JS.newline_s.

End LogViewer.

(** ** POSIX paths ([path.join]) *)

Module Path.

Definition slash : ascii := "/"%char.

Fixpoint join_segments (segs : list string) : string :=
  match segs with
  | [] => ""
  | [x] => x
  | x :: r => x +:+ "/" +:+ join_segments r
  end.

(** [normalizeString]: the stack holds the segments kept so far, the last
    one first. *)
Definition push_segment (allowAboveRoot : bool) (stack : list string) (seg : string)
  : list string :=
  if (String.eqb seg "" || String.eqb seg ".")%bool then stack
  else if String.eqb seg ".." then
    match stack with
    | top :: below => if String.eqb top ".." then seg :: stack else below
    | [] => if allowAboveRoot then [seg] else []
    end
  else seg :: stack.

Definition normalize (p : string) : string :=
  match p with
  | EmptyString => "."
  | _ =>
      let isAbsolute := JS.startsWith "/" p in
      let trailingSeparator := JS.endsWith "/" p in
      let segs := rev (fold_left (push_segment (negb isAbsolute)) (JS.split slash p) []) in
      let body := join_segments segs in
      match body with
      | EmptyString =>
          if isAbsolute then "/" else if trailingSeparator then "./" else "."
      | _ =>
          let body := if trailingSeparator then body +:+ "/" else body in
          if isAbsolute then "/" +:+ body else body
      end
  end.

(** [path.join(...parts)] *)
Definition join (parts : list string) : string :=
  normalize (join_segments (List.filter (fun x => negb (String.eqb x "")) parts)).

(** The directory that holds [p], for an absolute normalised [p]. *)
Definition parent (p : string) : string :=
  match rev (JS.split slash p) with
  | _ :: (_ :: _ :: _) as r => join_segments (rev r)
  | _ => "/"
  end.

(** The name of [p] inside [dir], when [p] is an entry of [dir]. *)
Definition entry_of (dir p : string) : option string :=
  match Json.expect (if String.eqb dir "/" then dir else dir +:+ "/") p with
  | Some name =>
      if (String.eqb name "" || JS.includes "/" name)%bool then None else Some name
  | None => None
  end.

End Path.

(** ** The file system *)

Module Fs.

(** What a path holds: a regular file, a directory, or something the
    process may not open. *)
Inductive node : Type :=
| File (content : string)
| Directory
| NoAccess.

Abbreviation disk := (gmap string node).

(** The calls of the [fs] module that a handler performs. *)
Inductive call : Type :=
| ReadFileSync (p : string)
| WriteFileSync (p : string)
| AppendFileSync (p : string)
| ReaddirSync (p : string)
| ReadFile (p : string).

(** Every function below returns [None] where the call of the source
    throws (or, for [readFile], passes an error to its callback). *)
Definition readFileSync (p : string) (d : disk) : option string :=
  match d !! p with
  | Some (File c) => Some c
  | _ => None
  end.

Definition is_directory (p : string) (d : disk) : bool :=
  match d !! p with
  | Some Directory => true
  | _ => false
  end.

Definition writeFileSync (p data : string) (d : disk) : option disk :=
  match d !! p with
  | Some (File _) => Some (<[p := File data]> d)
  | None => if is_directory (Path.parent p) d then Some (<[p := File data]> d) else None
  | Some _ => None
  end.

Definition appendFileSync (p data : string) (d : disk) : option disk :=
  match d !! p with
  | Some (File c) => Some (<[p := File (c +:+ data)]> d)
  | None => if is_directory (Path.parent p) d then Some (<[p := File data]> d) else None
  | Some _ => None
  end.

Definition readdirSync (p : string) (d : disk) : option (list string) :=
  if is_directory p d
  then Some (omap (Path.entry_of p) (map fst (map_to_list d)))
  else None.

Definition existsSync (p : string) (d : disk) : bool :=
  match d !! p with
  | Some _ => true
  | None => false
  end.

End Fs.

(** ** The clock: the UTC fields of a [Date] *)

Module Clock.

Record fields : Type :=
  Fields { year : Z; month : Z; day : Z; hours : Z; minutes : Z; seconds : Z }.

(** The civil date of a day number counted from 1970-01-01. *)
Definition civil (days : Z) : Z * Z * Z :=
  let z := days + 719468 in
  let era := z / 146097 in
  let doe := z - era * 146097 in
  let yoe := (doe - doe / 1460 + doe / 36524 - doe / 146096) / 365 in
  let doy := doe - (365 * yoe + yoe / 4 - yoe / 100) in
  let mp := (5 * doy + 2) / 153 in
  let d := doy - (153 * mp + 2) / 5 + 1 in
  let m := if mp <? 10 then mp + 3 else mp - 9 in
  let y := yoe + era * 400 + (if m <=? 2 then 1 else 0) in
  (y, m, d).

(** [getUTCFullYear], [getUTCMonth() + 1], [getUTCDate], [getUTCHours],
    [getUTCMinutes] and [getUTCSeconds] of [new Date(ms)]. *)
Definition utc (ms : Z) : fields :=
  let '(y, m, d) := civil (ms / 86400000) in
  let t := ms mod 86400000 in
  Fields y m d (t / 3600000) ((t / 60000) mod 60) ((t / 1000) mod 60).

End Clock.

(** The directory of the scripts: the [WORKDIR] of the image that
    [build.sh] builds. *)
Definition __dirname : string := "/app".

(** ** [sync.js] *)

Module Sync.

(** What the remote answers to one request: the ['error'] event of the
    request; a response with its status and its whole body; or a response
    that breaks off, the connection being closed after the head of the
    response and before its end. *)
Inductive reply : Type :=
| NetworkError (message : string)
| Response (statusCode : Z) (responseBody : string)
| Aborted.

(** A request, with what [JSON.stringify(data)] sends.  When [sha_of] is
    set to a text, the payload holds in addition the property [sha] of the
    value of that text, a JSON text whose value is beyond the embedding
    (no [sha], when that value is falsy or has none). *)
Record request : Type :=
  Request { method : string; url : string; data : option Json.value;
            sha_of : option string }.

(** The environment of one run: the two configuration variables, the local
    disk, the remote, and the text of [new Date().toLocaleString('zh-CN')]. *)
Record world : Type :=
  World { GITHUB_TOKEN : option string;
          GITHUB_REPO : option string;
          disk : Fs.disk;
          remote : request -> reply;
          localeTime : string }.

Definition DATA_FILE_PATH : string := Path.join [__dirname; "data.json"].
Definition API_BASE_URL : string := "https://api.github.com".

(** How the promise of [githubRequest] ends.  [JSON.parse] runs inside the
    listener of ['end']: when it throws, nothing catches the exception.  A
    response that breaks off emits no ['end'], and its ['error'] has no
    listener, so that nothing settles the promise: it stays [Pending]. *)
Inductive settled : Type :=
| Resolved (v : Json.value)
| ResolvedBeyond (text : string)         (* with the value of [text], beyond the embedding *)
| Rejected (message : string)
| Uncaught
| Pending.

Definition request_url (repo path : string) : string :=
  let parts := JS.split "/" repo in
  let owner := nth 0 parts "undefined" in
  let name := nth 1 parts "undefined" in
  API_BASE_URL +:+ "/repos/" +:+ owner +:+ "/" +:+ name +:+ "/" +:+ path.

(** The message of the error that rejects the promise. *)
Definition api_error (statusCode : Z) (responseBody : string) : string :=
  "API 错误 [" +:+ JS.Number_toString statusCode +:+ "]：" +:+ responseBody.

Definition githubRequest (r : reply) : settled :=
  match r with
  | NetworkError m => Rejected m
  | Response statusCode responseBody =>
      if statusCode >=? 400
      then Rejected (api_error statusCode responseBody)
      else let text := if String.eqb responseBody "" then "{}" else responseBody in
           match Json.parse text with
           | Json.Parsed v => Resolved v
           | Json.Beyond => ResolvedBeyond text
           | Json.SyntaxError => Uncaught
           end
  | Aborted => Pending
  end.

(** [Buffer.from(text).toString('base64')] *)
Definition utf8 (c : ascii) : list N :=
  let n := JS.code c in
  if N.ltb n 128 then [n] else [192 + N.div n 64; 128 + N.modulo n 64]%N.

Definition base64_alphabet : string :=
  "ABCDEFGHIJKLMNOPQRSTUVWXYZabcdefghijklmnopqrstuvwxyz0123456789+/".

Definition base64_digit (n : N) : ascii :=
  match String.get (N.to_nat n) base64_alphabet with
  | Some c => c
  | None => "="%char
  end.

Fixpoint base64_bytes (bytes : list N) : string :=
  match bytes with
  | [] => ""
  | [a] =>
      String (base64_digit (N.div a 4))
        (String (base64_digit (N.modulo a 4 * 16)) "==")
  | [a; b] =>
      String (base64_digit (N.div a 4))
        (String (base64_digit (N.modulo a 4 * 16 + N.div b 16))
           (String (base64_digit (N.modulo b 16 * 4)) "="))
  | a :: b :: c :: r =>
      String (base64_digit (N.div a 4))
        (String (base64_digit (N.modulo a 4 * 16 + N.div b 16))
           (String (base64_digit (N.modulo b 16 * 4 + N.div c 64))
              (String (base64_digit (N.modulo c 64)) (base64_bytes r))))
  end.

Definition base64 (text : string) : string :=
  base64_bytes (flat_map utf8 (JS.chars text)).

(** [commitData], as [JSON.stringify] sends it: a property whose value is
    [undefined] is left out. *)
Definition commitData (localeTime localData : string) (remoteFileInfo : option Json.value)
  : Json.value :=
  let base :=
    [("message", Json.Str ("Update data.json - " +:+ localeTime));
     ("content", Json.Str (base64 localData));
     ("branch", Json.Str "main")] in
  match remoteFileInfo with
  | Some info =>
      if Json.truthy info
      then match Json.get "sha" info with
           | Some sha => Json.Obj (base ++ [("sha", sha)])
           | None => Json.Obj base
           end
      else Json.Obj base
  | None => Json.Obj base
  end.

(** How the process ends, and the requests it sent, in order.  [Unsettled]:
    the promise of a request stays pending; nothing is left to run, and the
    process ends by itself with the code 0, with no message of success or
    of failure. *)
Inductive ending : Type :=
| Exit (code : Z)
| UncaughtException
| Unsettled.

Record run : Type := Run { ending_of : ending; sent : list request }.

Definition falsy (x : option string) : bool :=
  match x with
  | Some v => String.eqb v ""
  | None => true
  end.

(** The two requests of one run. *)
Definition fetch_of (w : world) : request :=
  Request "GET" (request_url (default "" (GITHUB_REPO w)) "contents/data.json") None None.

Definition put_of (w : world) (payload : Json.value) : request :=
  Request "PUT" (request_url (default "" (GITHUB_REPO w)) "contents/data.json")
          (Some payload) None.

(** The second request, when the fetch was answered with the JSON text
    [infoText], whose value is beyond the embedding. *)
Definition put_beyond_of (w : world) (localData infoText : string) : request :=
  Request "PUT" (request_url (default "" (GITHUB_REPO w)) "contents/data.json")
          (Some (commitData (localeTime w) localData None)) (Some infoText).

(** Step 4 of [sync]: submit the payload. *)
Definition submit (w : world) (put : request) : run :=
  match githubRequest (remote w put) with
  | Resolved _ => Run (Exit 0) [fetch_of w; put]
  | ResolvedBeyond _ => Run (Exit 0) [fetch_of w; put]
  | Rejected _ => Run (Exit 1) [fetch_of w; put]
  | Uncaught => Run UncaughtException [fetch_of w; put]
  | Pending => Run Unsettled [fetch_of w; put]
  end.

(** Steps 3 and 4 of [sync]: build [commitData] and submit it. *)
Definition push (w : world) (localData : string) (remoteFileInfo : option Json.value)
  : run :=
  submit w (put_of w (commitData (localeTime w) localData remoteFileInfo)).

Definition sync (w : world) : run :=
  match Fs.readFileSync DATA_FILE_PATH (disk w) with
  | None => Run (Exit 1) []
  | Some localData =>
      if String.eqb localData "" then Run (Exit 1) []
      else
        match githubRequest (remote w (fetch_of w)) with
        | Resolved info => push w localData (Some info)
        | ResolvedBeyond text => submit w (put_beyond_of w localData text)
        | Rejected message =>
            if JS.includes "[404]" message then push w localData None
            else Run (Exit 1) [fetch_of w]
        | Uncaught => Run UncaughtException [fetch_of w]
        | Pending => Run Unsettled [fetch_of w]
        end
  end.

(** The whole script: the two checks of its top level, then [sync()]. *)
Definition main (w : world) : run :=
  if (falsy (GITHUB_TOKEN w) || falsy (GITHUB_REPO w))%bool then Run (Exit 1) []
  else if (negb (Fs.existsSync DATA_FILE_PATH (disk w))
           || Fs.is_directory DATA_FILE_PATH (disk w))%bool then Run (Exit 1) []
  else sync w.

(** The exit code that the parent process sees: an uncaught exception ends
    the process with code 1, a promise that stays pending with code 0. *)
Definition exit_code (r : run) : Z :=
  match ending_of r with
  | Exit code => code
  | UncaughtException => 1
  | Unsettled => 0
  end.

Definition failed (r : run) : bool := negb (exit_code r =? 0).

End Sync.

(** ** [app.js] *)

Module App.

Record request : Type :=
  Req { method : string;
        originalUrl : string;
        ip : string;
        userAgent : option string;       (* [req.headers['user-agent']] *)
        body : Json.value }.             (* [req.body], as [bodyParser.json()] left it *)

Inductive payload : Type :=
| JsonBody (v : Json.value)              (* [res.json(v)] *)
| JsonText (text : string)               (* [res.json(JSON.parse(text))], the value
                                            of [text] being beyond the embedding *)
| TextBody (text : string)               (* [res.send(text)] *)
| FileBody (p : string)                  (* [res.sendFile(p)] *)
| NoBody.

Record response : Type := Res { status : Z; content : payload }.

(** The process-wide state a request meets: the disk, [Date.now()], the
    process environment, and what the remote would answer to [sync.js]. *)
Record world : Type :=
  World { disk : Fs.disk;
          now : Z;
          ADMIN_PASSWORD_env : option string;
          GITHUB_TOKEN : option string;
          GITHUB_REPO : option string;
          remote : Sync.request -> Sync.reply;
          localeTime : string }.

Definition with_disk (w : world) (d : Fs.disk) : world :=
  World d (now w) (ADMIN_PASSWORD_env w) (GITHUB_TOKEN w) (GITHUB_REPO w)
        (remote w) (localeTime w).

Definition LOG_DIR : string := Path.join [__dirname; "logs"].
Definition DATA_FILE : string := Path.join [__dirname; "data.json"].

Definition ADMIN_PASSWORD (w : world) : string :=
  match ADMIN_PASSWORD_env w with
  | Some v => if String.eqb v "" then "admin" else v
  | None => "admin"
  end.

(** *** The log writer *)
Definition offset : Z := 8 * 60 * 60 * 1000.

Definition getBeijingTimeString (w : world) : string :=
  let t := Clock.utc (now w + offset) in
  JS.Number_toString (Clock.year t) +:+ "/" +:+ JS.Number_toString (Clock.month t)
  +:+ "/" +:+ JS.Number_toString (Clock.day t) +:+ " "
  +:+ JS.padStart2 (JS.Number_toString (Clock.hours t)) +:+ ":"
  +:+ JS.padStart2 (JS.Number_toString (Clock.minutes t)) +:+ ":"
  +:+ JS.padStart2 (JS.Number_toString (Clock.seconds t)).

Definition getLogFileName (type : string) (w : world) : string :=
  let t := Clock.utc (now w + offset) in
  Path.join [LOG_DIR;
             type +:+ "-" +:+ JS.Number_toString (Clock.year t) +:+ "-"
             +:+ JS.padStart2 (JS.Number_toString (Clock.month t)) +:+ "-"
             +:+ JS.padStart2 (JS.Number_toString (Clock.day t)) +:+ ".log"].

Definition access_line (req : request) (w : world) : string :=
  "[" +:+ getBeijingTimeString w +:+ "] [IP: " +:+ ip req +:+ "] ["
  +:+ method req +:+ "] " +:+ originalUrl req +:+ " - " +:+ JS.quote_s
  +:+ default "" (userAgent req) +:+ JS.quote_s +:+ JS.newline_s.

(** [writeAccessLog(req)]: [None] when [fs.appendFileSync] throws. *)
Definition writeAccessLog (req : request) (w : world) : option Fs.disk :=
  Fs.appendFileSync (getLogFileName "access" w) (access_line req w) (disk w).

(** *** The handlers

    A handler returns what it did with the request, the disk it leaves and
    the [fs] calls it made. *)
Inductive step : Type :=
| Next                                   (* [next()] *)
| Throw (status : Z)                     (* [next(err)], or an exception *)
| Reply (r : response).

Record effect : Type := Eff { step_of : step; disk_of : Fs.disk; calls_of : list Fs.call }.

Definition handler : Type := request -> world -> effect.

Definition success (b : bool) : Json.value := Json.Obj [("success", Json.Bool b)].

Definition failure (message : string) : Json.value :=
  Json.Obj [("success", Json.Bool false); ("message", Json.Str message)].

Definition json (v : Json.value) : step := Reply (Res 200 (JsonBody v)).

(** [app.use((req, res, next) => { writeAccessLog(req); next(); })] *)
Definition log_middleware : handler := fun req w =>
  let call := Fs.AppendFileSync (getLogFileName "access" w) in
  match writeAccessLog req w with
  | Some d => Eff Next d [call]
  | None => Eff (Throw 500) (disk w) [call]
  end.

(** [app.use((err, req, res, next) => ...)] *)
Definition error_middleware : handler := fun req w =>
  Eff (Reply (Res 500 (JsonBody (failure "服务器错误")))) (disk w) [].

Definition verify_password : handler := fun req w =>
  let ok := match Json.get "password" (body req) with
            | Some (Json.Str x) => String.eqb x (ADMIN_PASSWORD w)
            | _ => false
            end in
  Eff (json (success ok)) (disk w) [].

(** [app.get('/api/cards', ...)] *)
Definition get_cards : handler := fun req w =>
  let call := Fs.ReadFileSync DATA_FILE in
  match Fs.readFileSync DATA_FILE (disk w) with
  | Some data =>
      match Json.parse data with
      | Json.Parsed v => Eff (json v) (disk w) [call]
      | Json.Beyond => Eff (Reply (Res 200 (JsonText data))) (disk w) [call]
      | Json.SyntaxError => Eff (json (Json.Arr [])) (disk w) [call]
      end
  | None => Eff (json (Json.Arr [])) (disk w) [call]
  end.

(** [app.post('/api/cards', ...)] *)
Definition post_cards : handler := fun req w =>
  let call := Fs.WriteFileSync DATA_FILE in
  match Fs.writeFileSync DATA_FILE (Json.stringify (body req)) (disk w) with
  | Some d => Eff (json (success true)) d [call]
  | None => Eff (json (success false)) (disk w) [call]
  end.

(** [app.post('/api/sync', ...)]: [exec] passes an error to its callback
    when the script ends with a code other than 0. *)
Definition post_sync : handler := fun req w =>
  let r := Sync.main (Sync.World (GITHUB_TOKEN w) (GITHUB_REPO w) (disk w)
                        (remote w) (localeTime w)) in
  if Sync.failed r
  then Eff (json (failure "同步失败")) (disk w) []
  else Eff (json (Json.Obj [("success", Json.Bool true);
                            ("message", Json.Str "同步成功")])) (disk w) [].

(** [app.get('/api/logs/files', ...)].  [localeCompare] is the collation of
    the host; it is a parameter of the handler. *)
Section Catalog.
Variable localeCompare : string -> string -> Z.

Definition is_access_log (file : string) : bool :=
  (JS.startsWith "access-" file && JS.endsWith ".log" file)%bool.

Definition date_of (file : string) : string :=
  JS.replace ".log" "" (JS.replace "access-" "" file).

Definition newest_first (a b : string) : Z :=
  let dateA := date_of a in
  let dateB := date_of b in
  localeCompare dateB dateA.

Definition list_log_files (names : list string) : list string :=
  JS.sort newest_first (List.filter is_access_log names).

Definition get_log_files : handler := fun req w =>
  let call := Fs.ReaddirSync LOG_DIR in
  match Fs.readdirSync LOG_DIR (disk w) with
  | Some names =>
      Eff (json (Json.Obj [("success", Json.Bool true);
                           ("files", Json.Arr (map Json.Str (list_log_files names)))]))
          (disk w) [call]
  | None => Eff (json (failure "获取日志文件列表失败")) (disk w) [call]
  end.
End Catalog.

(** [fs.readFile(file, 'utf8', callback)] with the callback of the two log
    readers.  A path that [fs.readFile] refuses before it reads, one with
    a NUL character, is outside the embedding. *)
Definition send_log (file : string) (missing : string) (w : world) : effect :=
  match Fs.readFileSync file (disk w) with
  | Some data => Eff (Reply (Res 200 (TextBody data))) (disk w) [Fs.ReadFile file]
  | None => Eff (Reply (Res 404 (TextBody missing))) (disk w) [Fs.ReadFile file]
  end.

(** [app.get('/api/logs/:filename', ...)], given [req.params.filename]. *)
Definition get_log (filename : string) : handler := fun req w =>
  if (negb (JS.startsWith "access-" filename) || negb (JS.endsWith ".log" filename))%bool
  then Eff (Reply (Res 400 (TextBody "无效的日志文件名"))) (disk w) []
  else send_log (Path.join [LOG_DIR; filename]) "日志文件不存在" w.

(** [app.get('/api/logs', ...)] *)
Definition get_today_log : handler := fun req w =>
  send_log (getLogFileName "access" w) "日志不存在" w.

Definition get_logs_page : handler := fun req w =>
  Eff (Reply (Res 200 (FileBody (Path.join [__dirname; "public"; "logs"; "index.html"]))))
      (disk w) [].

(** *** Routing, as Express 4 does it

    A route path is matched without regard to case and to one trailing
    slash; a parameter is one non-empty segment, decoded with
    [decodeURIComponent].  [path_of] is the path of a request target in
    origin form, one that begins with [/] and holds no [#] and no white
    space: what stands before the first [?].  For any other target the
    router asks the URL parser of the platform, which is not embedded. *)
Definition path_of (url : string) : string := nth 0 (JS.split "?" url) "".

Definition lower_char (c : ascii) : ascii :=
  let n := JS.code c in
  if (N.leb 65 n && N.leb n 90)%bool then ascii_of_N (n + 32) else c.

Fixpoint lower (s : string) : string :=
  match s with
  | EmptyString => EmptyString
  | String c r => String (lower_char c) (lower r)
  end.

Definition strip_slash (p : string) : string :=
  if JS.endsWith "/" p then String.substring 0 (String.length p - 1) p else p.

(** [decodeURIComponent]: [None] is its [URIError].  Of the escapes of
    bytes above 127 only the two-byte sequences of the 8-bit code units are
    decoded; the sequences of larger code points are outside the embedding
    and are refused. *)
Definition hex2 (a b : ascii) : option N :=
  match Json.hex_value a, Json.hex_value b with
  | Some x, Some y => Some (x * 16 + y)%N
  | _, _ => None
  end.

Fixpoint decodeURIComponent (s : string) {struct s} : option string :=
  match s with
  | EmptyString => Some EmptyString
  | String "%" (String a (String b r)) =>
      match hex2 a b with
      | Some n =>
          if N.ltb n 128 then String (ascii_of_N n) <$> decodeURIComponent r
          else if (N.eqb n 194 || N.eqb n 195)%bool then
            match r with
            | String "%" (String a' (String b' r')) =>
                match hex2 a' b' with
                | Some m =>
                    if (N.leb 128 m && N.ltb m 192)%bool
                    then String (ascii_of_N ((n - 192) * 64 + (m - 128)))
                           <$> decodeURIComponent r'
                    else None
                | None => None
                end
            | _ => None
            end
          else None
      | None => None
      end
  | String "%" _ => None
  | String c r => String c <$> decodeURIComponent r
  end.

Inductive pattern : Type :=
| Exact (p : string)                     (* [/api/cards] *)
| Param (prefix : string).               (* [/api/logs/:filename] is [Param "/api/logs/"] *)

Inductive matched : Type :=
| NoMatch
| Match (param : string)
| BadParam.                              (* the parameter does not decode: status 400 *)

Definition match_path (pat : pattern) (p : string) : matched :=
  let p := strip_slash p in
  match pat with
  | Exact lit => if String.eqb (lower p) lit then Match "" else NoMatch
  | Param prefix =>
      let n := String.length prefix in
      let name := String.substring n (String.length p - n) p in
      if (String.eqb (lower (String.substring 0 n p)) prefix
          && negb (String.eqb name "") && negb (JS.includes "/" name))%bool
      then match decodeURIComponent name with
           | Some v => Match v
           | None => BadParam
           end
      else NoMatch
  end.

(** A [GET] route also serves [HEAD] requests. *)
Definition method_matches (route_method request_method : string) : bool :=
  (String.eqb request_method route_method
   || (String.eqb route_method "GET" && String.eqb request_method "HEAD"))%bool.

Inductive layer : Type :=
| Use (name : string) (h : handler)
| UseError (name : string) (h : handler)
| Route (method : string) (pat : pattern) (name : string) (h : string -> handler).

(** What became of a request: the response, the disk, the [fs] calls in
    order, and the layers that ran, in order. *)
Record outcome : Type :=
  Out { response_of : response;
        final_disk : Fs.disk;
        calls : list Fs.call;
        visited : list string }.

Definition finish (name : string) (e : effect) (cs : list Fs.call) (vs : list string)
           (continue : option Z -> Fs.disk -> list Fs.call -> list string -> outcome)
  : outcome :=
  match step_of e with
  | Next => continue None (disk_of e) (cs ++ calls_of e) (vs ++ [name])
  | Throw st => continue (Some st) (disk_of e) (cs ++ calls_of e) (vs ++ [name])
  | Reply r => Out r (disk_of e) (cs ++ calls_of e) (vs ++ [name])
  end.

(** The router: a layer of [app.use] or of a route runs only while no error
    is pending, an error handler only while one is.  The answer that the
    router of Express gives by itself to an [OPTIONS] request is left
    out. *)
Fixpoint run (stack : list layer) (req : request) (w : world) (err : option Z)
         (d : Fs.disk) (cs : list Fs.call) (vs : list string) {struct stack} : outcome :=
  match stack with
  | [] =>
      match err with
      | Some st => Out (Res st NoBody) d cs vs
      | None => Out (Res 404 NoBody) d cs vs
      end
  | Use name h :: rest =>
      match err with
      | Some _ => run rest req w err d cs vs
      | None => finish name (h req (with_disk w d)) cs vs (run rest req w)
      end
  | UseError name h :: rest =>
      match err with
      | Some _ => finish name (h req (with_disk w d)) cs vs (run rest req w)
      | None => run rest req w err d cs vs
      end
  | Route m pat name h :: rest =>
      match err with
      | Some _ => run rest req w err d cs vs
      | None =>
          if method_matches m (method req) then
            match match_path pat (path_of (originalUrl req)) with
            | Match v => finish name (h v req (with_disk w d)) cs vs (run rest req w)
            | BadParam => run rest req w (Some 400) d cs vs
            | NoMatch => run rest req w err d cs vs
            end
          else run rest req w err d cs vs
      end
  end.

(** The application: the layers in the order in which [app.js] registers
    them.  The two middlewares that come from libraries are parameters:
    [bodyParser_json req] tells whether the body parser calls [next()]
    (it then has set [req.body]) or fails with a status, and
    [express_static req d] is the response of the static file server when
    it serves the request. *)
Section Application.
Variable bodyParser_json : request -> option Z.
Variable express_static : request -> Fs.disk -> option response.
Variable localeCompare : string -> string -> Z.

Definition body_parser : handler := fun req w =>
  match bodyParser_json req with
  | None => Eff Next (disk w) []
  | Some st => Eff (Throw st) (disk w) []
  end.

Definition static_files : handler := fun req w =>
  match express_static req (disk w) with
  | Some r => Eff (Reply r) (disk w) []
  | None => Eff Next (disk w) []
  end.

Definition app : list layer :=
  [ Use "bodyParser.json" body_parser;
    Use "access log" log_middleware;
    UseError "error handler" error_middleware;
    Use "express.static" static_files;
    Route "POST" (Exact "/api/verify-password") "POST /api/verify-password"
          (fun _ => verify_password);
    Route "GET" (Exact "/api/cards") "GET /api/cards" (fun _ => get_cards);
    Route "POST" (Exact "/api/cards") "POST /api/cards" (fun _ => post_cards);
    Route "POST" (Exact "/api/sync") "POST /api/sync" (fun _ => post_sync);
    Route "GET" (Exact "/api/logs/files") "GET /api/logs/files"
          (fun _ => get_log_files localeCompare);
    Route "GET" (Param "/api/logs/") "GET /api/logs/:filename" get_log;
    Route "GET" (Exact "/api/logs") "GET /api/logs" (fun _ => get_today_log);
    Route "GET" (Exact "/logs") "GET /logs" (fun _ => get_logs_page) ].

Definition handle (req : request) (w : world) : outcome :=
  run app req w None (disk w) [] [].
End Application.

End App.

(* ===================================================================== *)
(** * Part II: the vocabulary of the properties, and sample states        *)
(* ===================================================================== *)

(** ** Remote sync *)

Section SyncTerms.
Import Sync.

(** The properties that every [commitData] has. *)
Definition base_payload (w : world) (localData : string) : list (string * Json.value) :=
  [("message", Json.Str ("Update data.json - " +:+ localeTime w));
   ("content", Json.Str (base64 localData));
   ("branch", Json.Str "main")].




(** A remote that knows no file yet, then one that holds a file. *)
Definition sha_text : string := "3b18e512dba79e4c8300dd08aeb37f8e728b8dad".

Definition metadata_text : string :=
  "{" +:+ JS.quote_s +:+ "name" +:+ JS.quote_s +:+ ": " +:+ JS.quote_s +:+ "data.json"
  +:+ JS.quote_s +:+ ", " +:+ JS.quote_s +:+ "sha" +:+ JS.quote_s +:+ ": " +:+ JS.quote_s
  +:+ sha_text +:+ JS.quote_s +:+ "}".

Definition local_disk : Fs.disk :=
  <["/app/data.json" := Fs.File "[]"]> (<["/app" := Fs.Directory]> ∅).

Definition fresh_remote : world :=
  World (Some "token") (Some "ZDX1717/zdx-world-data") local_disk
        (fun q => if String.eqb (method q) "GET" then Response 404 "{}"
                  else Response 201 "{}")
        "2026/1/8 10:00:00".

Definition existing_remote : world :=
  World (Some "token") (Some "ZDX1717/zdx-world-data") local_disk
        (fun q => Response 200 metadata_text)
        "2026/1/8 10:00:00".

(** A remote that fails with a server error whose body quotes a [404]. *)
Definition confused_remote : world :=
  World (Some "token") (Some "ZDX1717/zdx-world-data") local_disk
        (fun q => Response 502 "upstream answered [404]")
        "2026/1/8 10:00:00".

(** The run starts without a request: a configuration variable is unset or
    empty, or the card document is absent, unreadable or empty. *)
Definition nothing_to_send (w : world) : Prop :=
  falsy (GITHUB_TOKEN w) = true
  \/ falsy (GITHUB_REPO w) = true
  \/ Fs.readFileSync DATA_FILE_PATH (disk w) = None
  \/ Fs.readFileSync DATA_FILE_PATH (disk w) = Some "".

(** The run sent the fetch and then a [PUT] whose payload carries
    [localData] in base64 for the branch [main], and the [PUT] was answered
    with a status below 400.  Such an answer need not say that the remote
    stored the file: a redirection is one. *)
Definition put_answered (w : world) (localData : string) (r : run) : Prop :=
  exists put payload statusCode body,
    sent r = [fetch_of w; put]
    /\ method put = "PUT"
    /\ data put = Some payload
    /\ Json.get "content" payload = Some (Json.Str (base64 localData))
    /\ Json.get "branch" payload = Some (Json.Str "main")
    /\ remote w put = Response statusCode body
    /\ statusCode < 400.

(** A response of the remote broke off: it answers the last request of the
    run, whose promise stays pending, so that the process ends by itself. *)
Definition cut_off (w : world) (r : run) : Prop :=
  exists before q,
    sent r = before ++ [q] /\ remote w q = Aborted /\ ending_of r = Unsettled.

(** A remote whose answer to the metadata fetch breaks off. *)
Definition aborting_remote : world :=
  World (Some "token") (Some "ZDX1717/zdx-world-data") local_disk
        (fun q => Aborted)
        "2026/1/8 10:00:00".


(** A remote that answers every request with a redirection. *)
Definition redirecting_remote : world :=
  World (Some "token") (Some "ZDX1717/zdx-world-data") local_disk
        (fun q => Response 301 "")
        "2026/1/8 10:00:00".
End SyncTerms.

(** ** The server *)

Section ServerTerms.
Import App.

(** A disk as the server leaves it after its start, with one more file
    next to the log directory. *)
Definition sample_disk : Fs.disk :=
  <["/app/secret.log" := Fs.File "top secret"]>
    (<["/app/logs" := Fs.Directory]>
       (<["/app/data.json" := Fs.File "[]"]> (<["/app" := Fs.Directory]> ∅))).

(** A world around a disk (2026-01-08 10:00:00 in Beijing), and a request. *)
Definition sample_world (d : Fs.disk) : world :=
  World d 1767837600000 None None None (fun _ => Sync.NetworkError "offline")
        "2026/1/8 10:00:00".

Definition sample_request (m url : string) : request :=
  Req m url "1.2.3.4" (Some "UA") (Json.Obj []).

(** The answer of the error-handling middleware. *)
Definition server_error : response := Res 500 (JsonBody (failure "服务器错误")).

(** A disk on which the log directory cannot be written. *)
Definition locked_logs : Fs.disk :=
  <["/app/logs" := Fs.NoAccess]>
    (<["/app/data.json" := Fs.File "[]"]> (<["/app" := Fs.Directory]> ∅)).






(** Two cards, out of id order, with a quote and a backslash in a title. *)
Definition two_cards : list Dashboard.card :=
  [Dashboard.Card 3 "docs" "https://docs.example/?q=a&b" "#3cff3c";
   Dashboard.Card 1 (String JS.quote "home\") "https://home.example" "rgb(0, 0, 0)"].

(** A body that is not an array, and an array of two cards with the same
    id. *)
Definition odd_body : Json.value :=
  Json.Obj [("7", Json.Null); ("note", Json.Str "not a list"); ("n", Json.Num (-12))].

Definition twin_cards : Json.value :=
  Dashboard.saveCards_body
    [Dashboard.Card 1 "a" "https://a.example" "#3cff3c";
     Dashboard.Card 1 "b" "https://b.example" "#3cff3c"].

(** The order of the code units, as a comparator. *)
Definition compare_code_units (a b : string) : Z :=
  match String.compare a b with
  | Lt => -1
  | Eq => 0
  | Gt => 1
  end.



(** A log directory with three access logs and two other files, and the
    names in the order in which [readdirSync] lists them. *)
Definition log_dir_disk : Fs.disk :=
  <["/app/logs/access-2026-01-07.log" := Fs.File "b"]>
    (<["/app/logs/notes.txt" := Fs.File "n"]>
       (<["/app/logs/access-2026-01-08.log" := Fs.File "c"]>
          (<["/app/logs/access-2025-12-31.log" := Fs.File "a"]>
             (<["/app/logs/access-old.log.bak" := Fs.File "x"]> sample_disk)))).

Definition log_dir_names : list string :=
  Eval vm_compute in default [] (Fs.readdirSync LOG_DIR log_dir_disk).

(** The name that [getLogFileName] joins to the log directory, and the one
    of the access log. *)
Definition log_file_name (type : string) (w : world) : string :=
  let t := Clock.utc (now w + offset) in
  type +:+ "-" +:+ JS.Number_toString (Clock.year t) +:+ "-"
  +:+ JS.padStart2 (JS.Number_toString (Clock.month t)) +:+ "-"
  +:+ JS.padStart2 (JS.Number_toString (Clock.day t)) +:+ ".log".

Definition access_log_name (w : world) : string := log_file_name "access" w.

(** A text without a path separator. *)
Definition no_slash (s : string) : Prop := JS.includes "/" s = false.

(** The sample disk after the log writer has appended the line of a
    [GET /], and of a [POST /api/cards]. *)
Definition logged_disk : Fs.disk :=
  <["/app/logs/access-2026-01-08.log" :=
      Fs.File ("[2026/1/8 10:00:00] [IP: 1.2.3.4] [GET] / - " +:+ JS.quote_s +:+ "UA"
               +:+ JS.quote_s +:+ JS.newline_s)]> sample_disk.

Definition posted_disk : Fs.disk :=
  <["/app/logs/access-2026-01-08.log" :=
      Fs.File ("[2026/1/8 10:00:00] [IP: 1.2.3.4] [POST] /api/cards - " +:+ JS.quote_s
               +:+ "UA" +:+ JS.quote_s +:+ JS.newline_s)]> sample_disk.

(** The handler that a layer runs for a request while no error is pending
    (for an error handler: while one is), if the layer takes the request. *)
Definition serves (l : layer) (req : request) : option handler :=
  match l with
  | Use _ h => Some h
  | UseError _ h => Some h
  | Route m pat _ h =>
      if method_matches m (method req) then
        match match_path pat (path_of (originalUrl req)) with
        | Match v => Some (h v)
        | _ => None
        end
      else None
  end.

(** A request target in origin form, whose path the router finds by
    itself, as what stands before the first [?]: the target begins with
    [/] and holds no [#] and no white space.  For every other target the
    router asks the URL parser of the platform. *)
Definition ends_path_scan (c : ascii) : bool :=
  let n := JS.code c in
  (N.eqb n 9 || N.eqb n 10 || N.eqb n 12 || N.eqb n 13 || N.eqb n 32 || N.eqb n 35
   || N.eqb n 160)%bool.

Definition origin_form (url : string) : bool :=
  (JS.startsWith "/" url && forallb (fun c => negb (ends_path_scan c)) (JS.chars url))%bool.

(** The card document is as in [d0], or the request is a [POST] (for a
    target in origin form: to the path [/api/cards]) and the document is
    its body, serialised. *)
Definition cards_kept_or_posted (req : request) (d0 d : Fs.disk) : Prop :=
  d !! DATA_FILE = d0 !! DATA_FILE
  \/ (method req = "POST"
      /\ (origin_form (originalUrl req) = true ->
          lower (strip_slash (path_of (originalUrl req))) = "/api/cards")
      /\ d !! DATA_FILE = Some (Fs.File (Json.stringify (body req)))).
End ServerTerms.

(** ** JSON texts *)

Section JsonTerms.
Import Json.

(** A text of white space only: an indentation, a line break. *)
Definition blank (s : string) : Prop := forallb is_ws (JS.chars s) = true.

(** What may follow a number token without changing how it reads: nothing,
    or a character that is neither a digit nor the start of a fraction or
    an exponent. *)
Definition closes_number (rest : string) : bool :=
  match rest with
  | EmptyString => true
  | String c _ => negb (JS.is_digit c || starts_fraction rest)
  end.

(** The key [k] may be created after the properties [pre]: it is none of
    their keys and property order puts it behind them. *)
Definition comes_after (k : string) (pre : list (string * value)) : Prop :=
  Forall (fun kv => String.eqb (fst kv) k = false /\ may_precede (fst kv) k = true) pre.

(** The characters a printed value can begin with. *)
Definition value_start (c : ascii) : bool :=
  (JS.is_digit c || Ascii.eqb c "-" || Ascii.eqb c "n" || Ascii.eqb c "t"
   || Ascii.eqb c "f" || Ascii.eqb c JS.quote || Ascii.eqb c "[" || Ascii.eqb c "{")%bool.

(** The text between two items of a printed array or object, and a printed
    member. *)
Definition separator (indent : string) : string := "," +:+ JS.newline_s +:+ indent.

Definition member_text (indent : string) (kv : string * value) : string :=
  quote (fst kv) +:+ ": " +:+ serialize indent (snd kv).

(** [v], printed at any indentation and followed by any text that closes a
    number, is read back as [v], with that text left over. *)
Definition reads_back (v : value) : Prop :=
  wf v = true ->
  forall ind fuel rest,
    blank ind ->
    (String.length (serialize ind v) <= fuel)%nat ->
    closes_number rest = true ->
    read_value fuel (serialize ind v +:+ rest) = Some (v, rest).
End JsonTerms.

(** ** The log viewer *)

Section ViewerTerms.
Import LogViewer.

(** The lines that [parseAccessLogStats] looks at, and the IP token of a
    line. *)
Definition log_lines (logText : string) : list string :=
  List.filter JS.trim_truthy (JS.split JS.newline logText).

Definition first_ip (line : string) : option string := JS.first_match ipRegex line.

(** The number of lines whose IP token is [ip]. *)
Definition occurrences (ip : string) (lines : list string) : Z :=
  Z.of_nat (List.length
              (List.filter (fun line => match first_ip line with
                                        | Some x => String.eqb x ip
                                        | None => false
                                        end) lines)).

(** The count that a mapping holds for [ip]: 0 when [ip] is not a key. *)
Definition count_of (ip : string) (counts : list (string * Z)) : Z :=
  match find (fun kv => String.eqb (fst kv) ip) counts with
  | Some kv => snd kv
  | None => 0
  end.

(** What one line does to the mapping. *)
Definition count_line (acc : list (string * Z)) (line : string) : list (string * Z) :=
  match first_ip line with
  | Some ip => bump ip acc
  | None => acc
  end.

(** [a] is ranked before [b]: its count is not below that of [b]. *)
Definition ranks_before (a b : string * Z) : Prop := snd b <= snd a.

(** The words a regular expression can consume, whatever stands around
    them: [\b] consumes nothing, a repetition consumes between [lo] and [hi]
    words of its body. *)
Fixpoint shape (r : JS.regex) (w : list ascii) {struct r} : Prop :=
  match r with
  | JS.ReDigit => exists c, w = [c] /\ JS.is_digit c = true
  | JS.ReChar a => w = [a]
  | JS.ReWordBoundary => w = []
  | JS.ReSeq r1 r2 => exists w1 w2, w = w1 ++ w2 /\ shape r1 w1 /\ shape r2 w2
  | JS.ReRepeat r' lo hi =>
      exists pieces,
        (lo <= List.length pieces <= hi)%nat
        /\ Forall (shape r') pieces /\ w = concat pieces
  end.

(** One to three digits, and four such groups with dots between them. *)
Definition digit_group (g : list ascii) : Prop :=
  (1 <= List.length g <= 3)%nat /\ Forall (fun c => JS.is_digit c = true) g.

Definition dotted_quad (w : list ascii) : Prop :=
  exists a b c d,
    digit_group a /\ digit_group b /\ digit_group c /\ digit_group d
    /\ w = a ++ "."%char :: b ++ "."%char :: c ++ "."%char :: d.
End ViewerTerms.

(* ===================================================================== *)
(** * Part III: the properties                                            *)
(* ===================================================================== *)

(** ** Card ids on add *)

Section CardIds.
Import Dashboard.

Lemma Math_max_ge_init (xs : list Z) (x : Z) : x <= JS.Math_max x xs.
Proof.
  unfold JS.Math_max. revert x.
  induction xs as [|y ys IH]; intros x; simpl; [lia|].
  specialize (IH (Z.max x y)). lia.
Qed.

Lemma Math_max_ge (xs : list Z) (x y : Z) : In y xs -> y <= JS.Math_max x xs.
Proof.
  unfold JS.Math_max. revert x.
  induction xs as [|z zs IH]; intros x Hin; simpl in *; [contradiction|].
  destruct Hin as [->|Hin].
  - pose proof (Math_max_ge_init zs (Z.max x y)) as H. unfold JS.Math_max in H. lia.
  - now apply IH.
Qed.

Lemma Math_max_in (xs : list Z) (x : Z) : In (JS.Math_max x xs) (x :: xs).
Proof.
  unfold JS.Math_max. revert x.
  induction xs as [|y ys IH]; intros x; simpl; [now left|].
  destruct (IH (Z.max x y)) as [H|H].
  - rewrite <- H. destruct (Z.max_spec x y) as [[_ ->]|[_ ->]]; auto.
  - right; now right.
Qed.

(** C9: a card that is added to cards whose ids are safe integers
    receives the greatest existing id plus one, and the id 1 when there
    is no card yet; the id is greater than every existing id, whatever the
    number of cards. *)
Theorem added_card_id_is_max_plus_one (cards : list card) (t u c : string) :
  safe_ids cards ->
  t <> "" -> u <> "" ->
  saveCard None t u c cards = Some (cards ++ [Card (next_id cards) t u c])
  /\ (cards = [] -> next_id cards = 1)
  /\ (cards <> [] -> exists k, In k cards /\ next_id cards = id k + 1)
  /\ (forall k, In k cards -> id k < next_id cards).
Proof.
  intros _ Ht Hu. repeat split.
  - unfold saveCard.
    destruct (String.eqb_spec t ""); [contradiction|].
    destruct (String.eqb_spec u ""); [contradiction|]. reflexivity.
  - intros ->. reflexivity.
  - intros Hne. unfold next_id.
    destruct cards as [|k0 ks]; [contradiction|]. simpl map.
    destruct (Math_max_in (map id ks) (id k0)) as [H|H].
    + exists k0. split; [now left|]. now rewrite <- H.
    + apply in_map_iff in H. destruct H as [k [Hk Hin]].
      exists k. split; [now right|]. now rewrite Hk.
  - intros k Hin. unfold next_id.
    destruct cards as [|k0 ks]; [contradiction|]. simpl map.
    destruct Hin as [->|Hin].
    + pose proof (Math_max_ge_init (map id ks) (id k)). lia.
    + pose proof (Math_max_ge (map id ks) (id k0) (id k) (in_map id _ _ Hin)). lia.
Qed.

Lemma added_card_id_is_max_plus_one_witness :
  let cards := [Card 1 "a" "https://a.example" "#3cff3c";
                Card 3 "c" "https://c.example" "#3cff3c"] in
  saveCard None "d" "https://d.example" "#000000" cards
  = Some (cards ++ [Card 4 "d" "https://d.example" "#000000"]).
Proof.
  intros cards.
  destruct (added_card_id_is_max_plus_one cards "d" "https://d.example" "#000000")
    as [H _]; [repeat constructor|discriminate|discriminate|].
  exact H.
Defined.
End CardIds.

(** ** The statistics of the log viewer *)

Section Analyzer.
Import LogViewer.

(** C7: on the three-line example the analyzer counts 3 lines and 2
    distinct IP tokens, maps 1.2.3.4 to 2 and 5.6.7.8 to 1, and ranks
    1.2.3.4 before 5.6.7.8. *)
Theorem analyzer_example :
  parseAccessLogStats example_log
  = Stats 3 2 [("1.2.3.4", 2); ("5.6.7.8", 1)]
  /\ topIps (parseAccessLogStats example_log) = ["1.2.3.4"; "5.6.7.8"]
  /\ sortedIps (parseAccessLogStats example_log) = [("1.2.3.4", 2); ("5.6.7.8", 1)].
Proof. repeat split; vm_compute; reflexivity. Qed.
End Analyzer.

(** ** Remote sync *)

Section RemoteSync.
Import Sync.

Lemma not_found_message (body : string) :
  JS.includes "[404]" (api_error 404 body) = true.
Proof. reflexivity. Qed.

Lemma sent_submit (w : world) (put : request) : sent (submit w put) = [fetch_of w; put].
Proof. unfold submit. destruct (githubRequest _); reflexivity. Qed.

Lemma sent_push (w : world) (localData : string) (info : option Json.value) :
  sent (push w localData info)
  = [fetch_of w; put_of w (commitData (localeTime w) localData info)].
Proof. apply sent_submit. Qed.

Lemma get_sha_truthy (info sha : Json.value) : Json.get "sha" info = Some sha -> Json.truthy info = true.
Proof. destruct info; simpl; try discriminate; reflexivity. Qed.

(** C3: after a not-found answer to the metadata fetch the payload of the
    create-or-update call has no [sha]; after an answer that carries
    metadata with a [sha], the payload has exactly that [sha]. *)
Theorem sync_payload_sha (w : world) (localData : string) :
  Fs.readFileSync DATA_FILE_PATH (disk w) = Some localData ->
  localData <> "" ->
  (forall body,
      remote w (fetch_of w) = Response 404 body ->
      sent (sync w) = [fetch_of w; put_of w (Json.Obj (base_payload w localData))]
      /\ Json.get "sha" (Json.Obj (base_payload w localData)) = None)
  /\ (forall statusCode body info sha,
         remote w (fetch_of w) = Response statusCode body ->
         statusCode < 400 ->
         Json.parse body = Json.Parsed info ->
         Json.get "sha" info = Some sha ->
         sent (sync w)
         = [fetch_of w; put_of w (Json.Obj (base_payload w localData ++ [("sha", sha)]))]
         /\ Json.get "sha" (Json.Obj (base_payload w localData ++ [("sha", sha)])) = Some sha).
Proof.
  intros Hread Hne. split.
  - intros body Hreply. split; [|reflexivity].
    unfold sync. rewrite Hread.
    destruct (String.eqb_spec localData ""); [contradiction|].
    rewrite Hreply. unfold githubRequest at 1.
    change (404 >=? 400) with true. cbv iota.
    rewrite not_found_message, sent_push. reflexivity.
  - intros statusCode body info sha Hreply Hst Hparse Hsha. split; [|reflexivity].
    unfold sync. rewrite Hread.
    destruct (String.eqb_spec localData ""); [contradiction|].
    rewrite Hreply. unfold githubRequest at 1.
    destruct (Z.geb_spec statusCode 400); [lia|].
    destruct (String.eqb_spec body "") as [->|_]; [discriminate Hparse|].
    cbv zeta. rewrite Hparse, sent_push.
    unfold commitData. rewrite (get_sha_truthy _ _ Hsha), Hsha. reflexivity.
Qed.

Lemma sync_payload_sha_witness :
  (sent (sync fresh_remote)
   = [fetch_of fresh_remote;
      put_of fresh_remote (Json.Obj (base_payload fresh_remote "[]"))])
  /\ (sent (sync existing_remote)
      = [fetch_of existing_remote;
         put_of existing_remote
           (Json.Obj (base_payload existing_remote "[]" ++ [("sha", Json.Str sha_text)]))]).
Proof.
  split.
  - destruct (sync_payload_sha fresh_remote "[]") as [H _];
      [reflexivity|discriminate|].
    destruct (H "{}") as [Hs _]; [reflexivity|]. exact Hs.
  - destruct (sync_payload_sha existing_remote "[]") as [_ H];
      [reflexivity|discriminate|].
    destruct (H 200 metadata_text
                (Json.Obj [("name", Json.Str "data.json"); ("sha", Json.Str sha_text)])
                (Json.Str sha_text)) as [Hs _];
      [reflexivity|lia|vm_compute; reflexivity|reflexivity|]. exact Hs.
Defined.











End RemoteSync.

(** ** The card store and the log reader of [app.js] *)

Section Server.
Import App.

Lemma with_disk_same (w : world) : with_disk w (disk w) = w.
Proof. now destruct w. Qed.

(** C5: when the card document is absent, is not a readable file, or
    holds a text that is no JSON text, so that [JSON.parse] throws, the
    handler of [GET /api/cards] answers the empty array with the status
    200; it does not fail. *)
Theorem load_falls_back_to_empty (req : request) (w : world) :
  disk w !! DATA_FILE = None
  \/ disk w !! DATA_FILE = Some Fs.Directory
  \/ disk w !! DATA_FILE = Some Fs.NoAccess
  \/ (exists data, disk w !! DATA_FILE = Some (Fs.File data)
                   /\ Json.parse data = Json.SyntaxError) ->
  get_cards req w
  = Eff (Reply (Res 200 (JsonBody (Json.Arr [])))) (disk w) [Fs.ReadFileSync DATA_FILE].
Proof.
  unfold get_cards, Fs.readFileSync.
  intros [H|[H|[H|[data [H Hp]]]]]; rewrite H; try reflexivity.
  now rewrite Hp.
Qed.

Lemma load_falls_back_to_empty_witness :
  let req := sample_request "GET" "/api/cards" in
  let answer d :=
    Eff (Reply (Res 200 (JsonBody (Json.Arr [])))) d [Fs.ReadFileSync DATA_FILE] in
  let absent : Fs.disk := <["/app" := Fs.Directory]> ∅ in
  let locked : Fs.disk := <["/app/data.json" := Fs.NoAccess]> absent in
  let corrupted : Fs.disk := <["/app/data.json" := Fs.File "[{oops"]> absent in
  get_cards req (sample_world absent) = answer absent
  /\ get_cards req (sample_world locked) = answer locked
  /\ get_cards req (sample_world corrupted) = answer corrupted.
Proof.
  intros req answer absent locked corrupted. split; [|split].
  - apply (load_falls_back_to_empty req (sample_world absent)).
    left. vm_compute. reflexivity.
  - apply (load_falls_back_to_empty req (sample_world locked)).
    right; right; left. vm_compute. reflexivity.
  - apply (load_falls_back_to_empty req (sample_world corrupted)).
    right; right; right. exists "[{oops". split; vm_compute; reflexivity.
Defined.

(** The shape check of the log reader: a name that does not both begin
    with [access-] and end with [.log] is answered with 400, and no [fs]
    call is made. *)
Lemma get_log_rejects_other_names (filename : string) (req : request) (w : world) :
  is_access_log filename = false ->
  get_log filename req w
  = Eff (Reply (Res 400 (TextBody "无效的日志文件名"))) (disk w) [].
Proof.
  unfold is_access_log, get_log. intros H.
  rewrite <- negb_andb, H. reflexivity.
Qed.

(** C2, at the name [access-/../../secret.log]: the name holds path
    separators, passes the shape check, and the handler reads
    [/app/secret.log], a file outside the log directory.  The request
    [GET /api/logs/access-%2F..%2F..%2Fsecret.log] delivers that name.  The
    names [../../etc/passwd] and [access-2024-01-01.txt], which do not have
    the shape, are answered with 400 and without any [fs] call. *)
Theorem log_reader_follows_separators :
  let w := sample_world sample_disk in
  let req := sample_request "GET" "/api/logs/x" in
  let filename := "access-/../../secret.log" in
  let refused := Eff (Reply (Res 400 (TextBody "无效的日志文件名"))) sample_disk [] in
  JS.includes "/" filename = true
  /\ get_log filename req w
     = Eff (Reply (Res 200 (TextBody "top secret"))) sample_disk
           [Fs.ReadFile "/app/secret.log"]
  /\ match_path (Param "/api/logs/") "/api/logs/access-%2F..%2F..%2Fsecret.log"
     = Match filename
  /\ response_of
       (handle (fun _ => None) (fun _ _ => None) (fun _ _ => 0)
               (sample_request "GET" "/api/logs/access-%2F..%2F..%2Fsecret.log") w)
     = Res 200 (TextBody "top secret")
  /\ get_log "../../etc/passwd" req w = refused
  /\ get_log "access-2024-01-01.txt" req w = refused.
Proof. repeat split; vm_compute; reflexivity. Qed.

(** ** The log writer in front of the handlers *)

Lemma run_use (name : string) (h : handler) (rest : list layer) (req : request)
      (w : world) (d : Fs.disk) (cs : list Fs.call) (vs : list string) :
  run (Use name h :: rest) req w None d cs vs
  = finish name (h req (with_disk w d)) cs vs (run rest req w).
Proof. reflexivity. Qed.

Lemma run_error (name : string) (h : handler) (rest : list layer) (req : request)
      (w : world) (st : Z) (d : Fs.disk) (cs : list Fs.call) (vs : list string) :
  run (UseError name h :: rest) req w (Some st) d cs vs
  = finish name (h req (with_disk w d)) cs vs (run rest req w).
Proof. reflexivity. Qed.

(** C6, as the code has it: when the append of the log writer fails, the
    request goes to the error handler, which answers 500; no later layer
    and no route handler runs. *)
Theorem log_failure_aborts_request
        (bodyParser_json : request -> option Z)
        (express_static : request -> Fs.disk -> option response)
        (localeCompare : string -> string -> Z)
        (req : request) (w : world) :
  bodyParser_json req = None ->
  writeAccessLog req w = None ->
  handle bodyParser_json express_static localeCompare req w
  = Out server_error (disk w) [Fs.AppendFileSync (getLogFileName "access" w)]
        ["bodyParser.json"; "access log"; "error handler"].
Proof.
  intros Hbody Hlog. unfold handle, app.
  rewrite run_use, with_disk_same. unfold body_parser at 1. rewrite Hbody.
  unfold finish at 1. cbn [step_of disk_of calls_of].
  rewrite run_use, with_disk_same. unfold log_middleware at 1. rewrite Hlog.
  unfold finish at 1. cbn [step_of disk_of calls_of].
  rewrite run_error, with_disk_same. reflexivity.
Qed.

Lemma log_failure_aborts_request_witness :
  let req := sample_request "GET" "/api/cards" in
  let w := sample_world locked_logs in
  handle (fun _ => None) (fun _ _ => None) (fun _ _ => 0) req w
  = Out server_error locked_logs [Fs.AppendFileSync "/app/logs/access-2026-01-08.log"]
        ["bodyParser.json"; "access log"; "error handler"].
Proof.
  intros req w.
  apply (log_failure_aborts_request (fun _ => None) (fun _ _ => None) (fun _ _ => 0) req w).
  - reflexivity.
  - vm_compute. reflexivity.
Defined.

(** C6 as stated fails: with a log directory that cannot be written, the
    request [GET /api/cards] does not reach its handler, although the card
    document is in place; the answer is the 500 of the error handler. *)
Lemma log_failure_blocks_handler :
  let req := sample_request "GET" "/api/cards" in
  let w := sample_world locked_logs in
  let out := handle (fun _ => None) (fun _ _ => None) (fun _ _ => 0) req w in
  writeAccessLog req w = None
  /\ step_of (get_cards req w) = Reply (Res 200 (JsonBody (Json.Arr [])))
  /\ ~ In "GET /api/cards" (visited out)
  /\ response_of out = server_error.
Proof.
  repeat split; try (vm_compute; reflexivity).
  vm_compute. intros [H|[H|[H|[]]]]; discriminate H.
Qed.
End Server.

(** ** Sorting *)

(** [Array.prototype.sort] with a comparator that decides a total preorder
    on the elements returns them in that order. *)
Section SortFacts.
Context {A : Type} (cmp : A -> A -> Z) (P : A -> Prop) (le : A -> A -> Prop).
Hypothesis cmp_le : forall x y, P x -> P y -> (cmp x y <= 0 <-> le x y).
Hypothesis le_total : forall x y, P x -> P y -> le x y \/ le y x.
Hypothesis le_trans : forall x y z, P x -> P y -> P z -> le x y -> le y z -> le x z.

Lemma sort_insert_Permutation (x : A) (l : list A) :
  Permutation (JS.sort_insert cmp x l) (x :: l).
Proof.
  induction l as [|y r IH]; simpl; [reflexivity|].
  destruct (cmp x y <=? 0); [reflexivity|].
  rewrite IH. apply perm_swap.
Qed.

Lemma sort_Permutation (l : list A) : Permutation (JS.sort cmp l) l.
Proof.
  induction l as [|x r IH]; simpl; [reflexivity|].
  rewrite sort_insert_Permutation. now constructor.
Qed.

Lemma sort_insert_sorted (x : A) (l : list A) :
  P x -> Forall P l -> StronglySorted le l ->
  StronglySorted le (JS.sort_insert cmp x l).
Proof.
  intros Px. induction l as [|y r IH]; intros HP Hs; simpl.
  - repeat constructor.
  - apply Forall_cons_iff in HP. destruct HP as [Py Pr].
    apply StronglySorted_inv in Hs. destruct Hs as [Hs Hy].
    destruct (Z.leb_spec (cmp x y) 0) as [Hle|Hgt].
    + apply cmp_le in Hle; trivial.
      constructor; [now constructor|].
      constructor; [exact Hle|].
      rewrite List.Forall_forall in *. intros z Hz.
      apply (le_trans x y z); auto.
    + constructor; [now apply IH|].
      apply (Permutation_Forall (Permutation_sym (sort_insert_Permutation x r))).
      constructor; [|exact Hy].
      destruct (le_total x y Px Py) as [H|H]; [|exact H].
      apply cmp_le in H; trivial. lia.
Qed.

Lemma sort_sorted (l : list A) : Forall P l -> StronglySorted le (JS.sort cmp l).
Proof.
  induction l as [|x r IH]; intros HP; simpl; [constructor|].
  apply Forall_cons_iff in HP. destruct HP as [Px Pr].
  apply sort_insert_sorted; auto.
  apply (Permutation_Forall (Permutation_sym (sort_Permutation r))). exact Pr.
Qed.
End SortFacts.





(** ** [JSON.parse] reads back what [JSON.stringify] wrote *)

Section JsonRoundTrip.
Import Json.
#[local] Arguments String.append _ _ : simpl nomatch.

(** *** Texts *)
Lemma app_assoc_s (a b c : string) : (a +:+ b) +:+ c = a +:+ (b +:+ c).
Proof. induction a as [|x a IH]; simpl; [reflexivity|]. now rewrite IH. Qed.

Lemma app_nil_r_s (a : string) : a +:+ "" = a.
Proof. induction a as [|x a IH]; simpl; [reflexivity|]. now rewrite IH. Qed.

Lemma length_app_s (a b : string) :
  String.length (a +:+ b) = (String.length a + String.length b)%nat.
Proof. induction a as [|x a IH]; simpl; [reflexivity|]. now rewrite IH. Qed.

Lemma rev_string_app (acc : list ascii) (out : string) :
  JS.rev_string acc out = JS.rev_string acc "" +:+ out.
Proof.
  revert out. induction acc as [|c acc IH]; intros out; simpl; [reflexivity|].
  rewrite IH, (IH (String c "")), app_assoc_s. reflexivity.
Qed.

(** *** White space *)
Lemma blank_app (a b : string) : blank a -> blank b -> blank (a +:+ b).
Proof.
  unfold blank. induction a as [|x a IH]; simpl; [auto|].
  intros Ha Hb. apply andb_true_iff in Ha. destruct Ha as [-> Ha]. simpl. auto.
Qed.

Lemma blank_newline_indent (ind : string) : blank ind -> blank (JS.newline_s +:+ ind).
Proof. intros H. apply blank_app; [reflexivity|exact H]. Qed.

Lemma blank_gap (ind : string) : blank ind -> blank (ind +:+ gap).
Proof. intros H. apply blank_app; [exact H|reflexivity]. Qed.

Lemma skip_ws_blank (ws s : string) : blank ws -> skip_ws (ws +:+ s) = skip_ws s.
Proof.
  unfold blank. induction ws as [|x ws IH]; simpl; [reflexivity|].
  intros H. apply andb_true_iff in H. destruct H as [-> H]. auto.
Qed.

Lemma after_blank (c : ascii) (ws s : string) :
  blank ws -> after c (ws +:+ s) = after c s.
Proof. intros H. unfold after. now rewrite skip_ws_blank. Qed.

Lemma after_hit (c : ascii) (s : string) :
  is_ws c = false -> after c (String c s) = Some s.
Proof. intros H. unfold after. simpl. now rewrite H, Ascii.eqb_refl. Qed.

Lemma after_miss (c c' : ascii) (s : string) :
  is_ws c' = false -> Ascii.eqb c' c = false -> after c (String c' s) = None.
Proof. intros H H'. unfold after. simpl. now rewrite H, H'. Qed.

Lemma read_value_skip (fuel : nat) (s s' : string) :
  skip_ws s = skip_ws s' -> read_value fuel s = read_value fuel s'.
Proof. intros H. destruct fuel; simpl; [reflexivity|]. now rewrite H. Qed.

Lemma read_value_blank (fuel : nat) (ws s : string) :
  blank ws -> read_value fuel (ws +:+ s) = read_value fuel s.
Proof. intros H. apply read_value_skip. now apply skip_ws_blank. Qed.

(** *** String tokens *)
Lemma read_quote_char (c : ascii) (r : string) (acc : list ascii) :
  read_chars (quote_char c +:+ r) acc = read_chars r (c :: acc).
Proof. destruct c as [[] [] [] [] [] [] [] []]; reflexivity. Qed.

Lemma read_quoted_chars (s r : string) (acc : list ascii) :
  read_chars (quote_chars s +:+ r) acc = Some (JS.rev_string acc "" +:+ s, r).
Proof.
  revert acc. induction s as [|c s IH]; intros acc; simpl.
  - now rewrite app_nil_r_s.
  - rewrite app_assoc_s, read_quote_char, IH. simpl.
    rewrite (rev_string_app acc (String c "")), app_assoc_s. reflexivity.
Qed.

(** *** Number tokens *)
Lemma read_digits_stop (rest : string) :
  closes_number rest = true -> read_digits rest = ("", rest).
Proof.
  destruct rest as [|c r]; simpl; [reflexivity|].
  intros H. apply negb_true_iff, orb_false_iff in H. destruct H as [-> _]. reflexivity.
Qed.

Lemma read_digits_uint (d : Decimal.uint) (rest : string) :
  closes_number rest = true ->
  read_digits (NilEmpty.string_of_uint d +:+ rest) = (NilEmpty.string_of_uint d, rest).
Proof.
  intros H. induction d; simpl; rewrite ?IHd; try reflexivity.
  now apply read_digits_stop.
Qed.

Lemma closes_number_fraction (rest : string) :
  closes_number rest = true -> starts_fraction rest = false.
Proof.
  destruct rest as [|c r]; [reflexivity|]. unfold closes_number.
  intros H. apply negb_true_iff, orb_false_iff in H. tauto.
Qed.

Lemma to_uint_nonnil (n : N) : N.to_uint n <> Decimal.Nil.
Proof.
  destruct n; simpl; [discriminate|]. apply DecimalPos.Unsigned.to_uint_nonnil.
Qed.

Lemma nat_toString_digits (n : N) :
  JS.nat_toString n = NilEmpty.string_of_uint (N.to_uint n).
Proof.
  unfold JS.nat_toString, NilZero.string_of_uint.
  pose proof (to_uint_nonnil n). destruct (N.to_uint n); congruence.
Qed.

Lemma read_natural_toString (n : N) (rest : string) :
  closes_number rest = true ->
  read_natural (JS.nat_toString n +:+ rest) = Some (n, rest).
Proof.
  intros H. unfold read_natural.
  rewrite nat_toString_digits, read_digits_uint, NilEmpty.usu by exact H.
  rewrite DecimalN.Unsigned.of_to, nat_toString_digits, String.eqb_refl. simpl.
  now rewrite closes_number_fraction.
Qed.

(** The first character of a printed natural number is a digit. *)
Lemma nat_toString_head (n : N) :
  exists c s, JS.nat_toString n = String c s /\ JS.is_digit c = true.
Proof.
  rewrite nat_toString_digits. pose proof (to_uint_nonnil n) as H.
  destruct (N.to_uint n); try congruence; simpl; eauto.
Qed.

Lemma digit_not_minus (c : ascii) : JS.is_digit c = true -> Ascii.eqb c "-" = false.
Proof. destruct c as [[] [] [] [] [] [] [] []]; try discriminate; reflexivity. Qed.

Lemma read_number_toString (z : Z) (rest : string) :
  closes_number rest = true ->
  read_number (JS.Number_toString z +:+ rest) = Some (Num z, rest).
Proof.
  intros H. destruct z as [|p|p]; simpl.
  - change (String "0" rest) with (JS.nat_toString 0 +:+ rest).
    rewrite read_natural_toString by exact H. reflexivity.
  - destruct (nat_toString_head (Npos p)) as [c [s [Hs Hc]]].
    rewrite Hs. simpl. rewrite (digit_not_minus c Hc).
    change (String c (s +:+ rest)) with (String c s +:+ rest).
    rewrite <- Hs, read_natural_toString by exact H. reflexivity.
  - rewrite read_natural_toString by exact H. reflexivity.
Qed.

(** *** Property order *)
Lemma keys_in_order_split (pre rest : list (string * value)) (k : string) (v : value) :
  keys_in_order (map fst (pre ++ (k, v) :: rest)) = true -> comes_after k pre.
Proof.
  induction pre as [|[k0 v0] pre IH]; simpl; intros H; [constructor|].
  apply andb_true_iff in H. destruct H as [H Hrest].
  constructor; [|now apply IH].
  rewrite forallb_forall in H.
  specialize (H k). rewrite map_app in H. simpl in H.
  assert (Hin : In k (map fst pre ++ k :: map fst rest))
    by (apply in_or_app; right; now left).
  apply H in Hin. apply andb_true_iff in Hin. destruct Hin as [Hne Hp].
  apply negb_true_iff in Hne. simpl. split; assumption.
Qed.

Lemma has_key_after (k : string) (pre : list (string * value)) :
  comes_after k pre -> has_key k pre = false.
Proof.
  induction 1 as [|kv pre [Hne _] _ IH]; simpl; [reflexivity|].
  now rewrite Hne.
Qed.

Lemma insert_index_after (n : N) (k : string) (v : value) (pre : list (string * value)) :
  array_index k = Some n -> comes_after k pre ->
  insert_index n k v pre = pre ++ [(k, v)].
Proof.
  intros Hk. induction 1 as [|[k0 v0] pre [_ Hp] _ IH]; simpl; [reflexivity|].
  unfold may_precede in Hp. simpl in Hp. rewrite Hk in Hp.
  destruct (array_index k0) as [m|]; [|discriminate].
  rewrite Hp. now rewrite IH.
Qed.

Lemma obj_set_after (k : string) (v : value) (pre : list (string * value)) :
  comes_after k pre -> obj_set k v pre = pre ++ [(k, v)].
Proof.
  intros H. unfold obj_set. rewrite (has_key_after k pre H).
  destruct (array_index k) as [n|] eqn:Hk; [|reflexivity].
  now apply insert_index_after.
Qed.

Lemma obj_of_entries_from (ms pre : list (string * value)) :
  keys_in_order (map fst (pre ++ ms)) = true ->
  fold_left (fun o kv => obj_set (fst kv) (snd kv) o) ms pre = pre ++ ms.
Proof.
  revert pre. induction ms as [|[k v] ms IH]; intros pre H; simpl.
  - now rewrite app_nil_r.
  - rewrite (obj_set_after k v pre (keys_in_order_split pre ms k v H)).
    rewrite IH; rewrite <- app_assoc; [reflexivity|exact H].
Qed.

Lemma obj_of_entries_ordered (ms : list (string * value)) :
  keys_in_order (map fst ms) = true -> obj_of_entries ms = ms.
Proof. intros H. unfold obj_of_entries. now rewrite obj_of_entries_from. Qed.

(** *** The first character of a printed value *)
Lemma value_start_facts (c : ascii) :
  value_start c = true ->
  is_ws c = false /\ Ascii.eqb c "]" = false /\ Ascii.eqb c "}" = false
  /\ Ascii.eqb c "," = false.
Proof. destruct c as [[] [] [] [] [] [] [] []]; try discriminate; repeat split. Qed.

Lemma digit_starts_number (c : ascii) (r : string) (f : nat) :
  JS.is_digit c = true -> read_value (S f) (String c r) = read_number (String c r).
Proof. destruct c as [[] [] [] [] [] [] [] []]; try discriminate; reflexivity. Qed.

Lemma serialize_head (ind : string) (v : value) :
  exists c s, serialize ind v = String c s /\ value_start c = true.
Proof.
  destruct v as [|[]|z|x|[|v vs]|[|m ms]]; simpl; eauto.
  destruct z as [|p|p]; simpl; eauto.
  destruct (nat_toString_head (Npos p)) as [c [x [-> Hc]]].
  exists c, x. split; [reflexivity|]. unfold value_start. now rewrite Hc.
Qed.

(** *** Values *)
Lemma serialize_arr (ind : string) (v : value) (vs : list value) :
  serialize ind (Arr (v :: vs))
  = String "[" ((JS.newline_s +:+ (ind +:+ gap))
                +:+ (String.concat (separator (ind +:+ gap))
                                   (map (serialize (ind +:+ gap)) (v :: vs))
                     +:+ ((JS.newline_s +:+ ind) +:+ "]"))).
Proof.
  change (serialize ind (Arr (v :: vs)))
    with ("[" +:+ JS.newline_s +:+ (ind +:+ gap)
          +:+ String.concat (separator (ind +:+ gap))
                (map (serialize (ind +:+ gap)) (v :: vs))
          +:+ JS.newline_s +:+ ind +:+ "]").
  rewrite !app_assoc_s. reflexivity.
Qed.

Lemma serialize_obj (ind : string) (m : string * value) (ms : list (string * value)) :
  serialize ind (Obj (m :: ms))
  = String "{" ((JS.newline_s +:+ (ind +:+ gap))
                +:+ (String.concat (separator (ind +:+ gap))
                                   (map (member_text (ind +:+ gap)) (m :: ms))
                     +:+ ((JS.newline_s +:+ ind) +:+ "}"))).
Proof.
  change (serialize ind (Obj (m :: ms)))
    with ("{" +:+ JS.newline_s +:+ (ind +:+ gap)
          +:+ String.concat (separator (ind +:+ gap))
                (map (member_text (ind +:+ gap)) (m :: ms))
          +:+ JS.newline_s +:+ ind +:+ "}").
  rewrite !app_assoc_s. reflexivity.
Qed.

Lemma closes_number_blank (ws s : string) :
  blank ws -> closes_number s = true -> closes_number (ws +:+ s) = true.
Proof.
  destruct ws as [|c ws]; [auto|]. unfold blank. simpl.
  intros H _. apply andb_true_iff in H. destruct H as [H _]. revert H.
  destruct c as [[] [] [] [] [] [] [] []]; try discriminate; reflexivity.
Qed.

Lemma read_value_string (f : nat) (r : string) :
  read_value (S f) (String JS.quote r)
  = match read_chars r [] with Some (x, r') => Some (Str x, r') | None => None end.
Proof. reflexivity. Qed.

Lemma read_value_array (f : nat) (r : string) :
  read_value (S f) (String "[" r)
  = match after "]" r with
    | Some r' => Some (Arr [], r')
    | None => match read_elements f r with
              | Some (vs, r') => Some (Arr vs, r')
              | None => None
              end
    end.
Proof. reflexivity. Qed.

Lemma read_value_object (f : nat) (r : string) :
  read_value (S f) (String "{" r)
  = match after "}" r with
    | Some r' => Some (Obj [], r')
    | None => match read_members f r with
              | Some (kvs, r') => Some (Obj (obj_of_entries kvs), r')
              | None => None
              end
    end.
Proof. reflexivity. Qed.

Lemma read_elements_S (f : nat) (s : string) :
  read_elements (S f) s
  = match read_value f s with
    | Some (v, r) =>
        match after "," r with
        | Some r' => match read_elements f r' with
                     | Some (vs, r2) => Some (v :: vs, r2)
                     | None => None
                     end
        | None => match after "]" r with
                  | Some r' => Some ([v], r')
                  | None => None
                  end
        end
    | None => None
    end.
Proof. reflexivity. Qed.

Lemma read_members_S (f : nat) (s : string) :
  read_members (S f) s
  = match after JS.quote s with
    | Some r =>
        match read_chars r [] with
        | Some (k, r1) =>
            match after ":" r1 with
            | Some r2 =>
                match read_value f r2 with
                | Some (v, r3) =>
                    match after "," r3 with
                    | Some r4 => match read_members f r4 with
                                 | Some (kvs, r5) => Some ((k, v) :: kvs, r5)
                                 | None => None
                                 end
                    | None => match after "}" r3 with
                              | Some r4 => Some ([(k, v)], r4)
                              | None => None
                              end
                    end
                | None => None
                end
            | None => None
            end
        | None => None
        end
    | None => None
    end.
Proof. reflexivity. Qed.

Lemma read_elements_blank (fuel : nat) (ws s : string) :
  blank ws -> read_elements fuel (ws +:+ s) = read_elements fuel s.
Proof.
  intros H. destruct fuel as [|f]; [reflexivity|].
  now rewrite !read_elements_S, read_value_blank.
Qed.

Lemma read_members_blank (fuel : nat) (ws s : string) :
  blank ws -> read_members fuel (ws +:+ s) = read_members fuel s.
Proof.
  intros H. destruct fuel as [|f]; [reflexivity|].
  now rewrite !read_members_S, after_blank.
Qed.

Lemma separator_length (ind : string) : (1 <= String.length (separator ind))%nat.
Proof. unfold separator. simpl. lia. Qed.

Lemma read_elements_serialized (ind ws tail : string) (vs : list value) :
  vs <> [] -> Forall reads_back vs -> forallb wf vs = true ->
  blank ind -> blank ws ->
  forall fuel,
    (String.length (String.concat (separator ind) (map (serialize ind) vs)) < fuel)%nat ->
    read_elements fuel
      (String.concat (separator ind) (map (serialize ind) vs) +:+ (ws +:+ String "]" tail))
    = Some (vs, tail).
Proof.
  intros Hne Hall Hwf Hind Hws.
  induction vs as [|v vs IH]; [congruence|]. clear Hne.
  apply Forall_cons_iff in Hall. destruct Hall as [Hv Hall].
  simpl in Hwf. apply andb_true_iff in Hwf. destruct Hwf as [Hwv Hwf].
  intros fuel Hfuel. destruct fuel as [|f]; [lia|]. rewrite read_elements_S.
  destruct vs as [|v2 vs].
  - simpl String.concat in *.
    rewrite (Hv Hwv ind f _ Hind) by (try lia; now apply closes_number_blank).
    rewrite after_blank, after_miss by (trivial; reflexivity).
    rewrite after_blank, after_hit by (trivial; reflexivity). reflexivity.
  - change (String.concat (separator ind) (map (serialize ind) (v :: v2 :: vs)))
      with (serialize ind v +:+ separator ind
            +:+ String.concat (separator ind) (map (serialize ind) (v2 :: vs))) in *.
    rewrite !length_app_s in Hfuel.
    rewrite !app_assoc_s.
    change (separator ind +:+ ?x) with (String "," ((JS.newline_s +:+ ind) +:+ x)).
    rewrite (Hv Hwv ind f _ Hind) by (try lia; reflexivity).
    rewrite after_hit by reflexivity.
    rewrite read_elements_blank by now apply blank_newline_indent.
    rewrite IH; trivial; try discriminate.
    pose proof (separator_length ind). lia.
Qed.

Lemma member_text_app (ind k : string) (v : value) (x : string) :
  member_text ind (k, v) +:+ x
  = String JS.quote (quote_chars k +:+ String ":" (" " +:+ (serialize ind v +:+ x))).
Proof.
  unfold member_text, quote. cbn [fst snd].
  change (String JS.quote (quote_chars k) +:+ ": " +:+ serialize ind v)
    with (String JS.quote (quote_chars k +:+ ": " +:+ serialize ind v)).
  change (String JS.quote ?a +:+ x) with (String JS.quote (a +:+ x)).
  rewrite !app_assoc_s. reflexivity.
Qed.

Lemma member_text_length (ind k : string) (v : value) :
  (String.length (serialize ind v) < String.length (member_text ind (k, v)))%nat.
Proof.
  unfold member_text, quote. cbn [fst snd].
  change (String.length (String JS.quote (quote_chars k) +:+ ": " +:+ serialize ind v))
    with (S (String.length (quote_chars k +:+ ": " +:+ serialize ind v))).
  rewrite !length_app_s. lia.
Qed.

Lemma read_members_serialized (ind ws tail : string) (ms : list (string * value)) :
  ms <> [] -> Forall (fun kv => reads_back (snd kv)) ms ->
  forallb (fun kv => wf (snd kv)) ms = true ->
  blank ind -> blank ws ->
  forall fuel,
    (String.length (String.concat (separator ind) (map (member_text ind) ms)) < fuel)%nat ->
    read_members fuel
      (String.concat (separator ind) (map (member_text ind) ms) +:+ (ws +:+ String "}" tail))
    = Some (ms, tail).
Proof.
  intros Hne Hall Hwf Hind Hws.
  induction ms as [|[k v] ms IH]; [congruence|]. clear Hne.
  apply Forall_cons_iff in Hall. destruct Hall as [Hv Hall]. cbn [snd] in Hv.
  cbn [forallb snd] in Hwf. apply andb_true_iff in Hwf. destruct Hwf as [Hwv Hwf].
  intros fuel Hfuel. destruct fuel as [|f]; [lia|]. rewrite read_members_S.
  pose proof (member_text_length ind k v) as Hlen.
  destruct ms as [|m2 ms].
  - change (String.concat (separator ind) (map (member_text ind) [(k, v)]))
      with (member_text ind (k, v)) in *.
    rewrite member_text_app, after_hit, read_quoted_chars by reflexivity.
    change (JS.rev_string [] "" +:+ k) with k.
    rewrite after_hit, (read_value_blank f " ") by reflexivity.
    rewrite (Hv Hwv ind f _ Hind) by (try lia; now apply closes_number_blank).
    rewrite after_blank, after_miss by (trivial; reflexivity).
    rewrite after_blank, after_hit by (trivial; reflexivity). reflexivity.
  - change (String.concat (separator ind) (map (member_text ind) ((k, v) :: m2 :: ms)))
      with (member_text ind (k, v) +:+ separator ind
            +:+ String.concat (separator ind) (map (member_text ind) (m2 :: ms))) in *.
    rewrite !length_app_s in Hfuel. pose proof (separator_length ind).
    rewrite app_assoc_s, member_text_app, after_hit, read_quoted_chars by reflexivity.
    change (JS.rev_string [] "" +:+ k) with k.
    rewrite after_hit, (read_value_blank f " ") by reflexivity.
    rewrite app_assoc_s.
    change (separator ind +:+ ?x) with (String "," ((JS.newline_s +:+ ind) +:+ x)).
    rewrite (Hv Hwv ind f _ Hind) by (try lia; reflexivity).
    rewrite after_hit by reflexivity.
    rewrite read_members_blank by now apply blank_newline_indent.
    rewrite IH; trivial; try discriminate. lia.
Qed.

Lemma concat_head (sep ind : string) (v : value) (vs : list value) :
  exists c s, String.concat sep (map (serialize ind) (v :: vs)) = String c s
              /\ value_start c = true.
Proof.
  destruct (serialize_head ind v) as [c [s [Hs Hc]]].
  destruct vs as [|v2 vs]; simpl; rewrite Hs; simpl; eauto.
Qed.

Lemma number_head (z : Z) :
  exists c s, JS.Number_toString z = String c s /\ (JS.is_digit c = true \/ c = "-"%char).
Proof.
  destruct z as [|p|p]; simpl; eauto.
  destruct (nat_toString_head (Npos p)) as [c [s [Hs Hc]]]. eauto.
Qed.

Lemma read_value_serialized (v : value) : reads_back v.
Proof.
  induction v as [|b|z|x|vs IH|ms IH] using value_ind;
    intros Hwf ind fuel rest Hind Hfuel Hrest.
  - destruct fuel as [|f]; [simpl in Hfuel; lia|]. reflexivity.
  - destruct fuel as [|f]; [destruct b; simpl in Hfuel; lia|]. destruct b; reflexivity.
  - change (serialize ind (Num z)) with (JS.Number_toString z) in *.
    destruct (number_head z) as [c [s [Hs Hc]]].
    destruct fuel as [|f]; [rewrite Hs in Hfuel; simpl in Hfuel; lia|].
    rewrite <- (read_number_toString z rest Hrest). rewrite Hs.
    change (String c s +:+ rest) with (String c (s +:+ rest)).
    destruct Hc as [Hc| ->]; [now apply digit_starts_number|reflexivity].
  - destruct fuel as [|f]; [simpl in Hfuel; lia|].
    change (serialize ind (Str x) +:+ rest) with (String JS.quote (quote_chars x +:+ rest)).
    now rewrite read_value_string, read_quoted_chars.
  - destruct vs as [|v vs].
    + destruct fuel as [|f]; [simpl in Hfuel; lia|]. reflexivity.
    + rewrite serialize_arr in *.
      set (inner := ind +:+ gap) in *.
      set (items := String.concat (separator inner) (map (serialize inner) (v :: vs))) in *.
      assert (Hinner : blank inner) by now apply blank_gap.
      destruct fuel as [|f]; [simpl in Hfuel; lia|].
      change (String "[" ?a +:+ rest) with (String "[" (a +:+ rest)).
      rewrite read_value_array.
      rewrite (app_assoc_s (JS.newline_s +:+ inner)), (app_assoc_s items),
        (app_assoc_s (JS.newline_s +:+ ind)).
      change ("]" +:+ rest) with (String "]" rest).
      rewrite after_blank by now apply blank_newline_indent.
      destruct (concat_head (separator inner) inner v vs) as [c [s [Hs Hc]]].
      fold items in Hs.
      destruct (value_start_facts c Hc) as [Hws [Hb _]].
      rewrite Hs at 1.
      change (String c s +:+ ?a) with (String c (s +:+ a)).
      rewrite (after_miss _ _ _ Hws Hb).
      rewrite read_elements_blank by now apply blank_newline_indent.
      unfold items.
      rewrite read_elements_serialized; trivial; try discriminate;
        try (now apply blank_newline_indent).
      fold items.
      change (String.length (String "[" ?a)) with (S (String.length a)) in Hfuel.
      rewrite !length_app_s in Hfuel.
      change (String.length JS.newline_s) with 1%nat in Hfuel. lia.
  - cbn [wf] in Hwf. apply andb_true_iff in Hwf. destruct Hwf as [Hkeys Hwf].
    destruct ms as [|m ms].
    + destruct fuel as [|f]; [simpl in Hfuel; lia|]. reflexivity.
    + rewrite serialize_obj in *.
      set (inner := ind +:+ gap) in *.
      set (items := String.concat (separator inner) (map (member_text inner) (m :: ms))) in *.
      assert (Hinner : blank inner) by now apply blank_gap.
      destruct fuel as [|f]; [simpl in Hfuel; lia|].
      change (String "{" ?a +:+ rest) with (String "{" (a +:+ rest)).
      rewrite read_value_object.
      rewrite (app_assoc_s (JS.newline_s +:+ inner)), (app_assoc_s items),
        (app_assoc_s (JS.newline_s +:+ ind)).
      change ("}" +:+ rest) with (String "}" rest).
      rewrite after_blank by now apply blank_newline_indent.
      assert (Hq : exists s, items = String JS.quote s)
        by (unfold items; destruct ms; simpl; eauto).
      destruct Hq as [s Hs].
      rewrite Hs at 1.
      change (String JS.quote s +:+ ?a) with (String JS.quote (s +:+ a)).
      rewrite after_miss by reflexivity.
      rewrite read_members_blank by now apply blank_newline_indent.
      unfold items.
      rewrite read_members_serialized; trivial; try discriminate;
        try (now apply blank_newline_indent).
      * now rewrite obj_of_entries_ordered.
      * fold items.
        change (String.length (String "{" ?a)) with (S (String.length a)) in Hfuel.
        rewrite !length_app_s in Hfuel.
      change (String.length JS.newline_s) with 1%nat in Hfuel. lia.
Qed.

(** [JSON.parse(JSON.stringify(v, null, 2))] is [v]. *)
Lemma read_stringify (v : value) : wf v = true -> read (stringify v) = Some v.
Proof.
  intros Hwf. unfold read, stringify.
  rewrite <- (app_nil_r_s (serialize "" v)) at 2.
  rewrite (read_value_serialized v Hwf "" _ ""); try reflexivity.
  lia.
Qed.

Lemma wf_exact (v : value) : wf v = true -> exact v = true.
Proof.
  induction v as [| | | |vs IH|ms IH] using value_ind; cbn [wf exact]; trivial.
  - intros H. rewrite forallb_forall in *. rewrite List.Forall_forall in IH. auto.
  - intros H. apply andb_prop in H. destruct H as [_ H].
    rewrite forallb_forall in *. rewrite List.Forall_forall in IH. auto.
Qed.

Lemma parse_stringify (v : value) : wf v = true -> parse (stringify v) = Parsed v.
Proof. intros Hwf. unfold parse. now rewrite read_stringify, wf_exact. Qed.
End JsonRoundTrip.

(** ** The card store: replace, then load *)

Section CardStore.
Import App.

Lemma read_after_write (p data : string) (d d' : Fs.disk) :
  Fs.writeFileSync p data d = Some d' ->
  d' !! p = Some (Fs.File data) /\ Fs.readFileSync p d' = Some data.
Proof.
  unfold Fs.writeFileSync, Fs.readFileSync. intros H.
  assert (Hd : d' = <[p := Fs.File data]> d).
  { destruct (d !! p) as [[]|]; try discriminate; [congruence|].
    destruct (Fs.is_directory _ _); [congruence|discriminate]. }
  subst d'. rewrite lookup_insert_eq. split; reflexivity.
Qed.

(** Whether the write succeeds depends on the disk, not on the text. *)
Lemma write_any_text (p data data' : string) (d d' : Fs.disk) :
  Fs.writeFileSync p data d = Some d' ->
  exists d2, Fs.writeFileSync p data' d = Some d2.
Proof.
  unfold Fs.writeFileSync.
  destruct (d !! p) as [[]|]; try discriminate; eauto.
  destruct (Fs.is_directory _ _); [eauto|discriminate].
Qed.

Lemma post_cards_written (req : request) (w : world) (d : Fs.disk) :
  Fs.writeFileSync DATA_FILE (Json.stringify (body req)) (disk w) = Some d ->
  post_cards req w = Eff (json (success true)) d [Fs.WriteFileSync DATA_FILE].
Proof. intros H. unfold post_cards. now rewrite H. Qed.

Lemma post_cards_success (req : request) (w : world) :
  step_of (post_cards req w) = json (success true) ->
  Fs.writeFileSync DATA_FILE (Json.stringify (body req)) (disk w)
  = Some (disk_of (post_cards req w)).
Proof.
  unfold post_cards.
  destruct (Fs.writeFileSync _ _ _); simpl; [reflexivity|discriminate].
Qed.

Lemma get_cards_stored (req : request) (w : world) (v : Json.value) :
  Json.wf v = true ->
  Fs.readFileSync DATA_FILE (disk w) = Some (Json.stringify v) ->
  get_cards req w = Eff (json v) (disk w) [Fs.ReadFileSync DATA_FILE].
Proof.
  intros Hwf Hread. unfold get_cards. now rewrite Hread, parse_stringify.
Qed.

Lemma wf_card_json (k : Dashboard.card) :
  Json.safe_integer (Dashboard.id k) = true -> Json.wf (Dashboard.card_json k) = true.
Proof.
  intros H. unfold Dashboard.card_json. cbn [Json.wf map fst snd forallb].
  rewrite H. reflexivity.
Qed.

Lemma wf_saveCards_body (cards : list Dashboard.card) :
  Forall (fun k => Json.safe_integer (Dashboard.id k) = true) cards ->
  Json.wf (Dashboard.saveCards_body cards) = true.
Proof.
  unfold Dashboard.saveCards_body. cbn [Json.wf].
  induction 1 as [|k ks Hk _ IH]; [reflexivity|].
  cbn [map forallb]. now rewrite (wf_card_json k Hk), IH.
Qed.

Lemma cards_of_saveCards_body (cards : list Dashboard.card) :
  Dashboard.cards_of_json (Dashboard.saveCards_body cards) = Some cards.
Proof.
  unfold Dashboard.saveCards_body, Dashboard.cards_of_json.
  induction cards as [|[i t u c] ks IH]; [reflexivity|].
  cbn [map Dashboard.cards_of_list]. rewrite IH. reflexivity.
Qed.

(** C1: when [POST /api/cards] with a sequence of cards as its body has
    answered [success: true], [GET /api/cards] answers that sequence: the
    same cards in the same order, each with its id, title, url and color. *)
Theorem replace_then_load (cards : list Dashboard.card) (req req' : request)
        (w w' : world) :
  Forall (fun k => Json.safe_integer (Dashboard.id k) = true) cards ->
  body req = Dashboard.saveCards_body cards ->
  step_of (post_cards req w) = json (success true) ->
  disk w' = disk_of (post_cards req w) ->
  get_cards req' w'
  = Eff (json (Dashboard.saveCards_body cards)) (disk w') [Fs.ReadFileSync DATA_FILE]
  /\ Dashboard.cards_of_json (Dashboard.saveCards_body cards) = Some cards.
Proof.
  intros Hsafe Hbody Hok Hdisk. split; [|apply cards_of_saveCards_body].
  apply post_cards_success in Hok. rewrite Hbody, <- Hdisk in Hok.
  apply read_after_write in Hok. destruct Hok as [_ Hread].
  apply get_cards_stored; [now apply wf_saveCards_body|exact Hread].
Qed.

Lemma replace_then_load_witness :
  let req := Req "POST" "/api/cards" "1.2.3.4" None (Dashboard.saveCards_body two_cards) in
  let w := sample_world sample_disk in
  let w' := with_disk w (disk_of (post_cards req w)) in
  get_cards (sample_request "GET" "/api/cards") w'
  = Eff (json (Dashboard.saveCards_body two_cards)) (disk w') [Fs.ReadFileSync DATA_FILE]
  /\ Dashboard.cards_of_json (Dashboard.saveCards_body two_cards) = Some two_cards.
Proof.
  intros req w w'.
  apply (replace_then_load two_cards req (sample_request "GET" "/api/cards") w w').
  - repeat constructor.
  - reflexivity.
  - vm_compute. reflexivity.
  - reflexivity.
Defined.

(** C10: the handler of [POST /api/cards] accepts every body.  On a disk
    on which the card document can be written, the body is stored as its
    pretty-printed JSON text, the answer is [success: true], a later
    [GET /api/cards] answers the body as it was sent, and any other body
    would have been stored just the same. *)
Theorem replace_stores_any_body (req : request) (w : world) (d : Fs.disk) :
  Json.wf (body req) = true ->
  Fs.writeFileSync DATA_FILE (Json.stringify (body req)) (disk w) = Some d ->
  post_cards req w = Eff (json (success true)) d [Fs.WriteFileSync DATA_FILE]
  /\ d !! DATA_FILE = Some (Fs.File (Json.stringify (body req)))
  /\ (forall req' w', disk w' = d ->
                      get_cards req' w' = Eff (json (body req)) d [Fs.ReadFileSync DATA_FILE])
  /\ (forall other, exists d2,
         post_cards other w = Eff (json (success true)) d2 [Fs.WriteFileSync DATA_FILE]).
Proof.
  intros Hwf Hwrite. split; [now apply post_cards_written|].
  destruct (read_after_write _ _ _ _ Hwrite) as [Hfile Hread].
  split; [exact Hfile|]. split.
  - intros req' w' <-. now apply get_cards_stored.
  - intros other.
    destruct (write_any_text _ _ (Json.stringify (body other)) _ _ Hwrite) as [d2 H2].
    exists d2. now apply post_cards_written.
Qed.

Lemma replace_stores_any_body_witness :
  let w := sample_world sample_disk in
  let stored v := <[DATA_FILE := Fs.File (Json.stringify v)]> sample_disk in
  let post v := Req "POST" "/api/cards" "1.2.3.4" None v in
  let load d := get_cards (sample_request "GET" "/api/cards") (sample_world d) in
  (post_cards (post odd_body) w
   = Eff (json (success true)) (stored odd_body) [Fs.WriteFileSync DATA_FILE]
   /\ load (stored odd_body)
      = Eff (json odd_body) (stored odd_body) [Fs.ReadFileSync DATA_FILE])
  /\ (post_cards (post twin_cards) w
      = Eff (json (success true)) (stored twin_cards) [Fs.WriteFileSync DATA_FILE]
      /\ load (stored twin_cards)
         = Eff (json twin_cards) (stored twin_cards) [Fs.ReadFileSync DATA_FILE]).
Proof.
  intros w stored post load. split.
  - destruct (replace_stores_any_body (post odd_body) w (stored odd_body))
      as [Hpost [_ [Hload _]]]; [reflexivity|reflexivity|].
    split; [exact Hpost|]. now apply Hload.
  - destruct (replace_stores_any_body (post twin_cards) w (stored twin_cards))
      as [Hpost [_ [Hload _]]]; [reflexivity|reflexivity|].
    split; [exact Hpost|]. now apply Hload.
Defined.
End CardStore.

(** ** The cards under the operations of the dashboard *)

Section CardOperations.
Import Dashboard.

Lemma next_id_above (cards : list card) (k : card) : In k cards -> id k < next_id cards.
Proof.
  intros Hin. unfold next_id.
  destruct cards as [|k0 ks]; [contradiction|]. cbn [map].
  destruct Hin as [->|Hin].
  - pose proof (Math_max_ge_init (map id ks) (id k)). lia.
  - pose proof (Math_max_ge (map id ks) (id k0) (id k) (in_map id _ _ Hin)). lia.
Qed.

(** X1: adding a card to cards whose ids are safe integers keeps the ids
    distinct: the new id occurs in no card of the collection it is added
    to. *)
Theorem add_keeps_ids_distinct (cards cards' : list card) (t u c : string) :
  safe_ids cards ->
  List.NoDup (map id cards) ->
  saveCard None t u c cards = Some cards' ->
  List.NoDup (map id cards') /\ ~ In (next_id cards) (map id cards).
Proof.
  intros _ Hnd Hsave.
  assert (Hfresh : ~ In (next_id cards) (map id cards)).
  { intros Hin. apply in_map_iff in Hin. destruct Hin as [k [Hk Hin]].
    pose proof (next_id_above cards k Hin). lia. }
  split; [|exact Hfresh].
  unfold saveCard in Hsave.
  destruct (String.eqb t "" || String.eqb u "")%bool; [discriminate|].
  injection Hsave as <-. rewrite map_app. cbn [map id].
  apply List.NoDup_app; [exact Hnd| |].
  - repeat constructor. intros [].
  - intros x Hx [<-|[]]. contradiction.
Qed.

Lemma add_keeps_ids_distinct_witness :
  List.NoDup (map id [Card 1 "a" "https://a.example" "#3cff3c";
                      Card 3 "c" "https://c.example" "#3cff3c";
                      Card 4 "d" "https://d.example" "#000000"]).
Proof.
  destruct (add_keeps_ids_distinct
              [Card 1 "a" "https://a.example" "#3cff3c";
               Card 3 "c" "https://c.example" "#3cff3c"]
              [Card 1 "a" "https://a.example" "#3cff3c";
               Card 3 "c" "https://c.example" "#3cff3c";
               Card 4 "d" "https://d.example" "#000000"]
              "d" "https://d.example" "#000000") as [H _].
  - repeat constructor.
  - repeat constructor; cbn; intuition discriminate.
  - reflexivity.
  - exact H.
Defined.

(** X2: editing a card keeps the ids, their order and the number of cards; every
    card of the result is a card of the collection or the edited card; and
    editing an id that no card has changes nothing. *)
Theorem edit_keeps_ids (cards cards' : list card) (i : Z) (t u c : string) :
  saveCard (Some i) t u c cards = Some cards' ->
  map id cards' = map id cards
  /\ (forall k', In k' cards' -> In k' cards \/ k' = Card i t u c)
  /\ (~ In i (map id cards) -> cards' = cards).
Proof.
  unfold saveCard.
  destruct (String.eqb t "" || String.eqb u "")%bool; [discriminate|].
  intros [= <-]. split; [|split].
  - rewrite map_map. apply map_ext. intros k. now destruct (id k =? i).
  - intros k' Hin. apply in_map_iff in Hin. destruct Hin as [k [<- Hin]].
    destruct (Z.eqb_spec (id k) i) as [->|_]; auto.
  - intros Habsent. rewrite <- (map_id cards) at 2.
    apply map_ext_in. intros k Hin.
    destruct (Z.eqb_spec (id k) i) as [Heq|_]; [|reflexivity].
    exfalso. apply Habsent. rewrite <- Heq. now apply in_map.
Qed.

Lemma edit_keeps_ids_witness :
  map id [Card 1 "a" "https://a.example" "#3cff3c";
          Card 3 "new" "https://new.example" "#ffffff"] = [1; 3].
Proof.
  destruct (edit_keeps_ids
              [Card 1 "a" "https://a.example" "#3cff3c";
               Card 3 "c" "https://c.example" "#3cff3c"]
              [Card 1 "a" "https://a.example" "#3cff3c";
               Card 3 "new" "https://new.example" "#ffffff"]
              3 "new" "https://new.example" "#ffffff") as [H _].
  - reflexivity.
  - exact H.
Defined.

(** X3: deleting by id, in a collection with distinct ids: the result has
    distinct ids, holds no card with that id, holds every other card, and is
    the collection itself when no card has the id. *)
Theorem delete_removes_the_id (cards : list card) (i : Z) :
  List.NoDup (map id cards) ->
  List.NoDup (map id (deleteCard i cards))
  /\ ~ In i (map id (deleteCard i cards))
  /\ (forall k, In k (deleteCard i cards) <-> In k cards /\ id k <> i)
  /\ (~ In i (map id cards) -> deleteCard i cards = cards).
Proof.
  intros Hnd. unfold deleteCard. split; [|split; [|split]].
  - clear -Hnd. induction cards as [|k ks IH]; [constructor|].
    cbn [map] in Hnd. apply List.NoDup_cons_iff in Hnd. destruct Hnd as [Hk Hnd].
    cbn [List.filter]. destruct (negb (id k =? i)); [|now apply IH].
    cbn [map]. constructor; [|now apply IH].
    intros Hin. apply Hk. apply in_map_iff in Hin. destruct Hin as [k' [Hk' Hin]].
    apply filter_In in Hin. rewrite <- Hk'. apply in_map. tauto.
  - intros Hin. apply in_map_iff in Hin. destruct Hin as [k [Hk Hin]].
    apply filter_In in Hin. destruct Hin as [_ Hne].
    apply negb_true_iff, Z.eqb_neq in Hne. contradiction.
  - intros k. rewrite filter_In, negb_true_iff, Z.eqb_neq. tauto.
  - intros Habsent. clear Hnd. induction cards as [|k ks IH]; [reflexivity|].
    cbn [List.filter]. destruct (Z.eqb_spec (id k) i) as [Heq|_].
    + exfalso. apply Habsent. left. exact Heq.
    + cbn [negb]. f_equal. apply IH. intros Hin. apply Habsent. now right.
Qed.

Lemma delete_removes_the_id_witness :
  List.NoDup (map id (deleteCard 3 [Card 1 "a" "https://a.example" "#3cff3c";
                                    Card 3 "c" "https://c.example" "#3cff3c"])).
Proof.
  apply (delete_removes_the_id
           [Card 1 "a" "https://a.example" "#3cff3c";
            Card 3 "c" "https://c.example" "#3cff3c"] 3).
  repeat constructor; cbn; intuition discriminate.
Defined.

Lemma number_from_ids (index : Z) (els : list shown) :
  map id (number_from index els)
  = map (fun n => index + Z.of_nat n) (seq 1 (List.length els)).
Proof.
  revert index. induction els as [|el r IH]; intros index; [reflexivity|].
  cbn [number_from map List.length seq id]. f_equal; try lia.
  rewrite IH, <- (seq_shift (List.length r) 1), map_map. apply map_ext. intros n. lia.
Qed.

(** X4: leaving the edit mode renumbers the cards: whatever their ids were, the
    cards that are saved have the ids 1, 2, ..., n in the order shown, so
    the ids are distinct and the next card added gets the id n + 1. *)
Theorem reorder_renumbers (els : list shown) :
  map id (saveCurrentOrder els) = map Z.of_nat (seq 1 (List.length els))
  /\ List.NoDup (map id (saveCurrentOrder els))
  /\ next_id (saveCurrentOrder els) = Z.of_nat (List.length els) + 1.
Proof.
  assert (Hids : map id (saveCurrentOrder els) = map Z.of_nat (seq 1 (List.length els))).
  { unfold saveCurrentOrder. rewrite number_from_ids. apply map_ext. intros n. lia. }
  split; [exact Hids|]. split.
  - rewrite Hids. apply Finite.Injective_map_NoDup.
    + intros a b. apply Nat2Z.inj.
    + apply List.seq_NoDup.
  - unfold next_id. rewrite Hids.
    destruct els as [|el r]; [reflexivity|].
    cbn [List.length seq map].
    set (rest := map Z.of_nat (seq 2 (List.length r))).
    assert (Hall : forall x, In x (Z.of_nat 1 :: rest) -> x <= Z.of_nat (S (List.length r))).
    { intros x [<-|Hx]; [lia|]. unfold rest in Hx.
      apply in_map_iff in Hx. destruct Hx as [n [<- Hn]]. apply in_seq in Hn. lia. }
    assert (Hlast : In (Z.of_nat (S (List.length r))) (Z.of_nat 1 :: rest)).
    { destruct r as [|el' r']; [now left|]. right. unfold rest.
      apply in_map. apply in_seq. cbn [List.length]. lia. }
    pose proof (Hall _ (Math_max_in rest (Z.of_nat 1))) as Hle.
    assert (Hge : Z.of_nat (S (List.length r)) <= JS.Math_max (Z.of_nat 1) rest).
    { destruct Hlast as [<-|Hin]; [apply Math_max_ge_init|now apply Math_max_ge]. }
    lia.
Qed.
End CardOperations.

(** ** The statistics of the log viewer, for every log text *)

Section ViewerStatistics.
Import LogViewer.

Lemma count_of_bump (ip ip' : string) (acc : list (string * Z)) :
  count_of ip' (bump ip acc) = count_of ip' acc + (if String.eqb ip ip' then 1 else 0).
Proof.
  unfold count_of. induction acc as [|[k v] r IH]; cbn [bump find fst snd].
  - destruct (String.eqb ip ip'); reflexivity.
  - destruct (String.eqb_spec k ip) as [->|Hk]; cbn [find fst snd].
    + destruct (String.eqb ip ip'); cbn [snd]; lia.
    + destruct (String.eqb_spec k ip') as [->|Hk'].
      * destruct (String.eqb_spec ip ip') as [->|_]; [contradiction|cbn [snd]; lia].
      * exact IH.
Qed.

Lemma bump_keys (ip k : string) (acc : list (string * Z)) :
  In k (map fst (bump ip acc)) <-> k = ip \/ In k (map fst acc).
Proof.
  induction acc as [|[k0 v] r IH]; cbn [bump map fst].
  - cbn. intuition.
  - destruct (String.eqb_spec k0 ip) as [->|Hk]; cbn [map fst In].
    + intuition.
    + rewrite IH. intuition.
Qed.

Lemma bump_NoDup (ip : string) (acc : list (string * Z)) :
  List.NoDup (map fst acc) -> List.NoDup (map fst (bump ip acc)).
Proof.
  induction acc as [|[k0 v] r IH]; cbn [bump map fst]; intros Hnd.
  - repeat constructor. intros [].
  - apply List.NoDup_cons_iff in Hnd. destruct Hnd as [Hk0 Hnd].
    destruct (String.eqb_spec k0 ip) as [->|Hk]; cbn [map fst].
    + now constructor.
    + constructor; [|now apply IH].
      rewrite bump_keys. intros [Heq|Hin]; [congruence|contradiction].
Qed.

Lemma bump_positive (ip : string) (acc : list (string * Z)) :
  Forall (fun kv => 1 <= snd kv) acc -> Forall (fun kv => 1 <= snd kv) (bump ip acc).
Proof.
  induction acc as [|[k0 v] r IH]; intros Hpos; cbn [bump].
  - repeat constructor. cbn [snd]. lia.
  - apply Forall_cons_iff in Hpos. destruct Hpos as [Hv Hpos]. cbn [snd] in Hv.
    destruct (String.eqb k0 ip); constructor; cbn [snd]; auto; lia.
Qed.

Lemma bump_length (ip : string) (acc : list (string * Z)) :
  (List.length (bump ip acc) <= S (List.length acc))%nat.
Proof.
  induction acc as [|[k0 v] r IH]; cbn [bump List.length]; [lia|].
  destruct (String.eqb k0 ip); cbn [List.length]; lia.
Qed.

Lemma counted_lines (lines : list string) (acc : list (string * Z)) :
  List.NoDup (map fst acc) -> Forall (fun kv => 1 <= snd kv) acc ->
  let counts := fold_left count_line lines acc in
  List.NoDup (map fst counts)
  /\ Forall (fun kv => 1 <= snd kv) counts
  /\ (forall ip, count_of ip counts = count_of ip acc + occurrences ip lines)
  /\ (List.length counts <= List.length acc + List.length lines)%nat.
Proof.
  revert acc. induction lines as [|line r IH]; intros acc Hnd Hpos; cbn [fold_left].
  - repeat split; trivial; [|lia]. intros ip. unfold occurrences. cbn. lia.
  - assert (Hnd' : List.NoDup (map fst (count_line acc line)))
      by (unfold count_line; destruct (first_ip _); [now apply bump_NoDup|exact Hnd]).
    assert (Hpos' : Forall (fun kv => 1 <= snd kv) (count_line acc line))
      by (unfold count_line; destruct (first_ip _); [now apply bump_positive|exact Hpos]).
    destruct (IH _ Hnd' Hpos') as [H1 [H2 [H3 H4]]].
    repeat split; trivial.
    + intros ip. rewrite H3. unfold occurrences, count_line.
      cbn [List.filter].
      destruct (first_ip line) as [x|].
      * rewrite count_of_bump. destruct (String.eqb x ip); cbn [List.length]; lia.
      * lia.
    + assert (Hstep : (List.length (count_line acc line) <= S (List.length acc))%nat)
        by (unfold count_line; destruct (first_ip line); [apply bump_length|lia]).
      cbn [List.length]. lia.
Qed.

Lemma count_of_entry (counts : list (string * Z)) (ip : string) (n : Z) :
  List.NoDup (map fst counts) -> Forall (fun kv => 1 <= snd kv) counts ->
  (In (ip, n) counts <-> 1 <= n /\ count_of ip counts = n).
Proof.
  unfold count_of. induction counts as [|[k v] r IH]; intros Hnd Hpos.
  - cbn. intuition lia.
  - cbn [map fst] in Hnd. apply List.NoDup_cons_iff in Hnd. destruct Hnd as [Hk Hnd].
    apply Forall_cons_iff in Hpos. destruct Hpos as [Hv Hpos]. cbn [snd] in Hv.
    specialize (IH Hnd Hpos). cbn [find fst snd In].
    destruct (String.eqb_spec k ip) as [->|Hne].
    + split.
      * intros [[= <-]|Hin]; [split; [exact Hv|reflexivity]|].
        exfalso. apply Hk. apply (in_map fst) in Hin. exact Hin.
      * intros [_ <-]. now left.
    + rewrite <- IH. split; [intros [[= Heq _]|Hin]; [contradiction|exact Hin]|auto].
Qed.

(** X5: for every log text, the mapping of [parseAccessLogStats] has distinct
    keys and holds [ip] with the count [n] exactly when [n] is the number of
    lines whose first IP token is [ip] and that number is not 0; the total
    is the number of non-blank lines, and there are no more keys than
    lines. *)
Theorem analyzer_counts_tokens (logText : string) :
  let st := parseAccessLogStats logText in
  total st = List.length (log_lines logText)
  /\ unique st = List.length (ipCounts st)
  /\ List.NoDup (map fst (ipCounts st))
  /\ (forall ip n, In (ip, n) (ipCounts st)
                   <-> 1 <= n /\ n = occurrences ip (log_lines logText))
  /\ (unique st <= total st)%nat.
Proof.
  cbn zeta. unfold parseAccessLogStats. cbn [total unique ipCounts].
  fold (log_lines logText).
  change (fold_left _ (log_lines logText) []) with (fold_left count_line (log_lines logText) []).
  destruct (counted_lines (log_lines logText) [] (List.NoDup_nil _) (List.Forall_nil _))
    as [Hnd [Hpos [Hcount Hlen]]].
  split; [reflexivity|]. split; [reflexivity|]. split; [exact Hnd|]. split.
  - intros ip n. rewrite (count_of_entry _ ip n Hnd Hpos), Hcount.
    unfold count_of at 1. cbn [find]. intuition lia.
  - cbn [List.length] in Hlen. lia.
Qed.
End ViewerStatistics.

(** ** The ranking of the log viewer *)

Section ViewerRanking.
Import LogViewer.

Lemma StronglySorted_app_inv {A : Type} (R : A -> A -> Prop) (l1 l2 : list A) :
  StronglySorted R (l1 ++ l2) ->
  StronglySorted R l1 /\ forall x y, In x l1 -> In y l2 -> R x y.
Proof.
  induction l1 as [|a l1 IH]; cbn [app]; intros Hs.
  - split; [constructor|]. intros x y [].
  - apply StronglySorted_inv in Hs. destruct Hs as [Hs Ha].
    destruct (IH Hs) as [Hs1 Hcross]. split.
    + constructor; [exact Hs1|].
      rewrite List.Forall_forall in *. intros x Hx. apply Ha. apply in_or_app. now left.
    + intros x y [<-|Hx] Hy; [|now apply Hcross].
      rewrite List.Forall_forall in Ha. apply Ha. apply in_or_app. now right.
Qed.

(** X6: the ranking holds the 8 most frequent entries of the mapping (all of
    them when there are at most 8), in the order of descending count: every
    entry it leaves out has a count that is not above any count it lists. *)
Theorem ranking_lists_the_most_frequent (st : stats) :
  List.length (sortedIps st) = Nat.min 8 (List.length (ipCounts st))
  /\ StronglySorted ranks_before (sortedIps st)
  /\ (forall e, In e (sortedIps st) -> In e (ipCounts st))
  /\ (forall e e', In e (sortedIps st) -> In e' (ipCounts st) ->
                   ~ In e' (sortedIps st) -> ranks_before e e')
  /\ ((List.length (ipCounts st) <= 8)%nat -> Permutation (sortedIps st) (ipCounts st)).
Proof.
  unfold sortedIps.
  set (cmp := fun a b : string * Z => snd b - snd a).
  set (sorted := JS.sort cmp (ipCounts st)).
  assert (Hperm : Permutation sorted (ipCounts st)) by apply sort_Permutation.
  assert (Hsorted : StronglySorted ranks_before sorted).
  { apply (sort_sorted cmp (fun _ => True) ranks_before).
    - intros x y _ _. unfold cmp, ranks_before. lia.
    - intros x y _ _. unfold ranks_before. lia.
    - intros x y z _ _ _. unfold ranks_before. lia.
    - apply List.Forall_forall. trivial. }
  rewrite <- (firstn_skipn 8 sorted) in Hsorted.
  apply StronglySorted_app_inv in Hsorted. destruct Hsorted as [Hfirst Hcross].
  split; [|split; [|split; [|split]]].
  - rewrite length_firstn. now rewrite (Permutation_length Hperm).
  - exact Hfirst.
  - intros e He. apply (Permutation_in _ Hperm).
    rewrite <- (firstn_skipn 8 sorted). apply in_or_app. now left.
  - intros e e' He He' Hout. apply Hcross; [exact He|].
    apply (Permutation_in _ (Permutation_sym Hperm)) in He'.
    rewrite <- (firstn_skipn 8 sorted) in He'.
    apply in_app_or in He'. destruct He' as [Hin|Hin]; [contradiction|exact Hin].
  - intros Hlen. rewrite firstn_all2; [exact Hperm|].
    now rewrite (Permutation_length Hperm).
Qed.
End ViewerRanking.

(** ** The IP tokens of the log viewer *)

Section ViewerTokens.
Import LogViewer.

Lemma chars_rev_string (acc : list ascii) (out : string) :
  JS.chars (JS.rev_string acc out) = rev acc ++ JS.chars out.
Proof.
  revert out. induction acc as [|c acc IH]; intros out; cbn [JS.rev_string rev]; [reflexivity|].
  rewrite IH. cbn [JS.chars]. now rewrite <- app_assoc.
Qed.

(** What the matcher consumes has the shape of the expression, and the
    continuation is run on what is left. *)
Lemma rmatch_sound (r : JS.regex) :
  forall prev s acc k m,
    JS.rmatch r prev s acc k = Some m ->
    exists w p s', shape r w /\ JS.chars s = w ++ JS.chars s'
                   /\ k p s' (rev w ++ acc) = Some m.
Proof.
  induction r as [|a| |r1 IH1 r2 IH2|r' IH lo hi]; intros prev s acc k m H.
  - cbn [JS.rmatch] in H. destruct s as [|c rest]; [discriminate|].
    destruct (JS.is_digit c) eqn:Hc; [|discriminate].
    exists [c], (Some c), rest. cbn [shape]. eauto.
  - cbn [JS.rmatch] in H. destruct s as [|c rest]; [discriminate|].
    destruct (Ascii.eqb_spec c a) as [->|]; [|discriminate].
    exists [a], (Some a), rest. cbn [shape]. eauto.
  - cbn [JS.rmatch] in H. destruct (JS.at_boundary prev s); [|discriminate].
    exists [], prev, s. cbn [shape]. eauto.
  - cbn [JS.rmatch] in H.
    apply IH1 in H. destruct H as [w1 [p1 [s1 [Hw1 [Hs1 H]]]]].
    apply IH2 in H. destruct H as [w2 [p2 [s2 [Hw2 [Hs2 H]]]]].
    exists (w1 ++ w2), p2, s2. cbn [shape]. split; [eauto|]. split.
    + now rewrite Hs1, Hs2, app_assoc.
    + now rewrite rev_app_distr, <- app_assoc.
  - cbn [JS.rmatch] in H.
    revert lo prev s acc H. induction hi as [|hi IHhi]; intros lo prev s acc H.
    + destruct lo; [|discriminate].
      exists [], prev, s. cbn [shape]. split; [|eauto].
      exists []. split; [cbn; lia|]. split; [constructor|reflexivity].
    + match type of H with
      | match ?x with Some _ => _ | None => _ end = _ => destruct x as [m'|] eqn:Hx
      end.
      * injection H as <-. apply IH in Hx.
        destruct Hx as [w1 [p1 [s1 [Hw1 [Hs1 Hx]]]]].
        apply IHhi in Hx. destruct Hx as [w2 [p2 [s2 [Hw2 [Hs2 Hx]]]]].
        cbn [shape] in Hw2. destruct Hw2 as [pieces [Hlen [Hall ->]]].
        exists (w1 ++ concat pieces), p2, s2. split; [|split].
        -- cbn [shape]. exists (w1 :: pieces). cbn [List.length concat].
           split; [lia|]. split; [now constructor|reflexivity].
        -- now rewrite Hs1, Hs2, app_assoc.
        -- now rewrite rev_app_distr, <- app_assoc.
      * destruct lo; [|discriminate].
        exists [], prev, s. cbn [shape]. split; [|eauto].
        exists []. split; [cbn; lia|]. split; [constructor|reflexivity].
Qed.

Lemma match_at_sound (r : JS.regex) (prev : option ascii) (s ip : string) :
  JS.match_at r prev s = Some ip ->
  shape r (JS.chars ip) /\ exists post, JS.chars s = JS.chars ip ++ post.
Proof.
  unfold JS.match_at.
  destruct (JS.rmatch r prev s [] (fun _ _ acc => Some acc)) as [acc|] eqn:H; [|discriminate].
  intros [= <-]. apply rmatch_sound in H.
  destruct H as [w [p [s' [Hw [Hs [= <-]]]]]].
  rewrite chars_rev_string. cbn [JS.chars]. rewrite !app_nil_r, rev_involutive.
  split; [exact Hw|]. now exists (JS.chars s').
Qed.

Lemma first_match_from_sound (r : JS.regex) (s : string) :
  forall prev ip,
    JS.first_match_from r prev s = Some ip ->
    shape r (JS.chars ip) /\ exists pre post, JS.chars s = pre ++ JS.chars ip ++ post.
Proof.
  induction s as [|c rest IH]; intros prev ip; cbn [JS.first_match_from];
    destruct (JS.match_at r prev _) as [x|] eqn:Hx.
  - intros [= <-]. apply match_at_sound in Hx. destruct Hx as [Hw [post Hs]].
    split; [exact Hw|]. now exists [], post.
  - discriminate.
  - intros [= <-]. apply match_at_sound in Hx. destruct Hx as [Hw [post Hs]].
    split; [exact Hw|]. now exists [], post.
  - intros H. apply IH in H. destruct H as [Hw [pre [post Hs]]].
    split; [exact Hw|]. exists (c :: pre), post. cbn [JS.chars]. now rewrite Hs.
Qed.

Lemma digits_shape (g : list ascii) : shape (JS.ReRepeat JS.ReDigit 1 3) g -> digit_group g.
Proof.
  cbn [shape]. intros [pieces [Hlen [Hall ->]]].
  assert (H : List.length (concat pieces) = List.length pieces
              /\ Forall (fun c => JS.is_digit c = true) (concat pieces)).
  { clear Hlen. induction Hall as [|p ps [c [-> Hc]] _ [IHl IHd]]; cbn [concat].
    - split; [reflexivity|constructor].
    - cbn [app List.length]. split; [now rewrite IHl|now constructor]. }
  destruct H as [Hl Hd]. split; [rewrite Hl; exact Hlen|exact Hd].
Qed.

Lemma ip_shape (w : list ascii) : shape ipRegex w -> dotted_quad w.
Proof.
  unfold ipRegex. cbn [shape].
  intros [w0 [w1 [-> [-> [w2 [w3 [-> [Hgroups [w4 [w5 [-> [Hd ->]]]]]]]]]]]].
  destruct Hgroups as [pieces [Hlen [Hall ->]]].
  destruct pieces as [|p1 [|p2 [|p3 [|p4 ps]]]]; cbn [List.length] in Hlen; try lia.
  apply Forall_cons_iff in Hall. destruct Hall as [[a [x [-> [Ha ->]]]] Hall].
  apply Forall_cons_iff in Hall. destruct Hall as [[b [y [-> [Hb ->]]]] Hall].
  apply Forall_cons_iff in Hall. destruct Hall as [[c [z [-> [Hc ->]]]] _].
  exists a, b, c, w4.
  repeat (split; [now apply digits_shape|]).
  cbn [concat app]. rewrite !app_nil_r, <- !app_assoc. reflexivity.
Qed.

(** X7: the IP token of a line, when it has one, is a part of the line made of
    four groups of one to three digits with dots between them.  The groups
    are not checked against 255: [999.300.1.2] is a token. *)
Theorem ip_token_is_dotted_quad (line ip : string) :
  first_ip line = Some ip ->
  dotted_quad (JS.chars ip)
  /\ (exists pre post, JS.chars line = pre ++ JS.chars ip ++ post)
  /\ first_ip "GET /x from 999.300.1.2" = Some "999.300.1.2".
Proof.
  unfold first_ip, JS.first_match. intros H.
  apply first_match_from_sound in H. destruct H as [Hw Hpart].
  split; [now apply ip_shape|]. split; [exact Hpart|]. vm_compute. reflexivity.
Qed.

Lemma ip_token_is_dotted_quad_witness :
  dotted_quad (JS.chars "1.2.3.4").
Proof.
  apply (ip_token_is_dotted_quad "[2026/1/8 10:00:00] [IP: 1.2.3.4] [GET] /x" "1.2.3.4").
  vm_compute. reflexivity.
Defined.
End ViewerTokens.

(** ** Names and paths of the log files *)

Section LogPaths.
Import App.
#[local] Arguments String.append _ _ : simpl nomatch.

Lemma includes_cons (p : string) (c : ascii) (s : string) :
  JS.includes p (String c s) = (String.prefix p (String c s) || JS.includes p s)%bool.
Proof.
  unfold JS.includes. cbn [String.index].
  destruct (String.prefix p (String c s)); [reflexivity|].
  destruct (String.index 0 p s); reflexivity.
Qed.

Lemma no_slash_cons (c : ascii) (s : string) :
  no_slash (String c s) <-> c <> "/"%char /\ no_slash s.
Proof.
  unfold no_slash. rewrite includes_cons.
  change (String.prefix "/" (String c s))
    with (if ascii_dec "/" c then String.prefix "" s else false).
  destruct (ascii_dec "/" c) as [<-|Hne].
  - destruct s; cbn; intuition congruence.
  - cbn [orb]. intuition congruence.
Qed.

Lemma no_slash_app (a b : string) : no_slash a -> no_slash b -> no_slash (a +:+ b).
Proof.
  induction a as [|c a IH]; cbn [String.append]; [auto|].
  rewrite !no_slash_cons. intuition.
Qed.

Lemma no_slash_uint (d : Decimal.uint) : no_slash (NilEmpty.string_of_uint d).
Proof.
  induction d; cbn [NilEmpty.string_of_uint]; try reflexivity;
    apply no_slash_cons; (split; [discriminate|assumption]).
Qed.

Lemma no_slash_number (z : Z) : no_slash (JS.Number_toString z).
Proof.
  destruct z as [|p|p]; cbn [JS.Number_toString]; [reflexivity| |].
  - rewrite nat_toString_digits. apply no_slash_uint.
  - apply no_slash_cons. split; [discriminate|].
    rewrite nat_toString_digits. apply no_slash_uint.
Qed.

Lemma no_slash_padStart2 (s : string) : no_slash s -> no_slash (JS.padStart2 s).
Proof.
  intros H. unfold JS.padStart2.
  destruct s as [|c [|d r]]; cbn [String.length]; trivial.
  apply no_slash_cons. split; [discriminate|exact H].
Qed.

Lemma split_no_slash (s : string) (cur : list ascii) :
  no_slash s -> JS.split_go "/" s cur = [JS.rev_string cur "" +:+ s].
Proof.
  revert cur. induction s as [|c s IH]; intros cur H; cbn [JS.split_go].
  - now rewrite app_nil_r_s.
  - apply no_slash_cons in H. destruct H as [Hc H].
    destruct (Ascii.eqb_spec c "/") as [->|_]; [contradiction|].
    rewrite (IH _ H). cbn [JS.rev_string].
    now rewrite (rev_string_app cur (String c "")), app_assoc_s.
Qed.

Lemma substring_skip (x y : string) (m : nat) :
  String.substring (String.length x) m (x +:+ y) = String.substring 0 m y.
Proof. induction x as [|c x IH]; cbn; [reflexivity|exact IH]. Qed.

Lemma substring_all (p : string) : String.substring 0 (String.length p) p = p.
Proof. induction p as [|c p IH]; cbn; [reflexivity|now rewrite IH]. Qed.

Lemma endsWith_app (x p : string) : JS.endsWith p (x +:+ p) = true.
Proof.
  unfold JS.endsWith. rewrite length_app_s.
  replace (String.length x + String.length p - String.length p)%nat
    with (String.length x) by lia.
  rewrite substring_skip, substring_all, String.eqb_refl.
  destruct (Nat.leb_spec (String.length p) (String.length x + String.length p));
    [reflexivity|lia].
Qed.

Lemma endsWith_slash_cons (c d : ascii) (s : string) :
  JS.endsWith "/" (String c (String d s)) = JS.endsWith "/" (String d s).
Proof.
  unfold JS.endsWith. cbn [String.length Nat.leb Nat.sub String.substring].
  now rewrite Nat.sub_0_r.
Qed.

Lemma endsWith_slash_app (a b : string) :
  b <> "" -> JS.endsWith "/" (a +:+ b) = JS.endsWith "/" b.
Proof.
  intros Hb. induction a as [|c a IH]; cbn [String.append]; [reflexivity|].
  rewrite <- IH. destruct (a +:+ b) as [|d r] eqn:Hab.
  - destruct a; [contradiction|discriminate].
  - apply endsWith_slash_cons.
Qed.

Lemma no_slash_endsWith (s : string) : no_slash s -> JS.endsWith "/" s = false.
Proof.
  induction s as [|c [|d r] IH]; intros H; [reflexivity| |].
  - apply no_slash_cons in H. destruct H as [Hc _].
    unfold JS.endsWith. cbn.
    destruct (Ascii.eqb_spec c "/"); [contradiction|reflexivity].
  - rewrite endsWith_slash_cons. apply IH. apply no_slash_cons in H. tauto.
Qed.

Lemma normalize_absolute (p body : string) :
  p <> "" -> JS.startsWith "/" p = true -> JS.endsWith "/" p = false ->
  Path.join_segments
    (rev (fold_left (Path.push_segment false) (JS.split Path.slash p) [])) = body ->
  body <> "" ->
  Path.normalize p = "/" +:+ body.
Proof.
  intros Hp Habs Htrail Hbody Hne. unfold Path.normalize.
  destruct p as [|c p]; [contradiction|].
  rewrite Habs, Htrail. cbn [negb]. rewrite Hbody.
  destruct body; [contradiction|reflexivity].
Qed.

Lemma split_log_dir (name : string) :
  no_slash name -> JS.split Path.slash ("/app/logs/" +:+ name) = [""; "app"; "logs"; name].
Proof.
  intros H. unfold JS.split, Path.slash.
  cbn [String.append JS.split_go Ascii.eqb Bool.eqb JS.rev_string].
  now rewrite (split_no_slash _ [] H).
Qed.

(** [path.join] of the log directory and a name that holds no separator and
    is no dot segment adds the name to the directory. *)
Lemma join_log_dir (name : string) :
  no_slash name -> name <> "" -> name <> "." -> name <> ".." ->
  Path.join [LOG_DIR; name] = "/app/logs/" +:+ name.
Proof.
  intros Hname H0 H1 H2.
  change LOG_DIR with "/app/logs".
  unfold Path.join. cbn [List.filter String.eqb negb].
  apply String.eqb_neq in H0 as E0. rewrite E0. cbn [negb Path.join_segments].
  change ("/app/logs" +:+ "/" +:+ name) with ("/app/logs/" +:+ name).
  rewrite (normalize_absolute ("/app/logs/" +:+ name) ("app/logs/" +:+ name)).
  - reflexivity.
  - discriminate.
  - reflexivity.
  - rewrite (endsWith_slash_app "/app/logs/" name H0). now apply no_slash_endsWith.
  - rewrite (split_log_dir name Hname).
    apply String.eqb_neq in H1 as E1. apply String.eqb_neq in H2 as E2.
    cbn [fold_left]. unfold Path.push_segment at 1 2 3. cbn [String.eqb Ascii.eqb Bool.eqb orb].
    unfold Path.push_segment. rewrite E0, E1, E2. reflexivity.
  - discriminate.
Qed.
Lemma startsWith_app (p s : string) : JS.startsWith p (p +:+ s) = true.
Proof.
  unfold JS.startsWith. induction p as [|c p IH]; [now destruct s|].
  change (String.prefix (String c p) (String c p +:+ s))
    with (if ascii_dec c c then String.prefix p (p +:+ s) else false).
  now destruct (ascii_dec c c).
Qed.

Lemma startsWith_inv (p s : string) :
  JS.startsWith p s = true -> exists r, s = p +:+ r.
Proof.
  unfold JS.startsWith. revert s. induction p as [|c p IH]; intros s H.
  - exists s. reflexivity.
  - destruct s as [|x s]; [discriminate|].
    change (String.prefix (String c p) (String x s))
      with (if ascii_dec c x then String.prefix p s else false) in H.
    destruct (ascii_dec c x) as [->|]; [|discriminate].
    destruct (IH _ H) as [r ->]. now exists r.
Qed.

Lemma access_log_name_head (w : world) :
  exists rest, access_log_name w = "access-" +:+ rest.
Proof. eexists. reflexivity. Qed.

Lemma access_log_name_tail (w : world) :
  exists front, access_log_name w = front +:+ ".log".
Proof.
  eexists. unfold access_log_name, log_file_name. cbv zeta.
  rewrite <- !app_assoc_s. reflexivity.
Qed.

Lemma access_log_name_no_slash (w : world) : no_slash (access_log_name w).
Proof.
  unfold access_log_name, log_file_name. cbv zeta.
  apply no_slash_app; [reflexivity|].
  apply no_slash_app; [reflexivity|].
  apply no_slash_app; [apply no_slash_number|].
  apply no_slash_app; [reflexivity|].
  apply no_slash_app; [apply no_slash_padStart2, no_slash_number|].
  apply no_slash_app; [reflexivity|].
  apply no_slash_app; [apply no_slash_padStart2, no_slash_number|].
  reflexivity.
Qed.

Lemma getLogFileName_with_disk (type : string) (w : world) (d : Fs.disk) :
  getLogFileName type (with_disk w d) = getLogFileName type w.
Proof. unfold getLogFileName. cbn [now with_disk]. reflexivity. Qed.

Lemma disk_with_disk (w : world) (d : Fs.disk) : disk (with_disk w d) = d.
Proof. reflexivity. Qed.

Lemma getLogFileName_access (w : world) :
  getLogFileName "access" w = "/app/logs/" +:+ access_log_name w.
Proof.
  change (getLogFileName "access" w) with (Path.join [LOG_DIR; access_log_name w]).
  apply join_log_dir; [apply access_log_name_no_slash| | |];
    destruct (access_log_name_head w) as [rest ->]; discriminate.
Qed.

Lemma expect_app (lit s : string) : Json.expect lit (lit +:+ s) = Some s.
Proof.
  induction lit as [|c lit IH]; cbn [Json.expect String.append]; [reflexivity|].
  now rewrite Ascii.eqb_refl.
Qed.

Lemma expect_inv (lit s r : string) : Json.expect lit s = Some r -> s = lit +:+ r.
Proof.
  revert s. induction lit as [|c lit IH]; intros s; cbn [Json.expect String.append].
  - congruence.
  - destruct s as [|x s]; [discriminate|].
    destruct (Ascii.eqb_spec x c) as [->|_]; [|discriminate].
    intros H. now rewrite (IH _ H).
Qed.

Lemma entry_of_log_dir (name : string) :
  no_slash name -> name <> "" ->
  Path.entry_of LOG_DIR ("/app/logs/" +:+ name) = Some name.
Proof.
  intros Hname H0. unfold Path.entry_of. change LOG_DIR with "/app/logs".
  change (if String.eqb "/app/logs" "/" then "/app/logs" else "/app/logs" +:+ "/")
    with "/app/logs/".
  rewrite expect_app. apply String.eqb_neq in H0. rewrite H0, Hname. reflexivity.
Qed.

Lemma entry_of_log_dir_inv (p name : string) :
  Path.entry_of LOG_DIR p = Some name ->
  p = "/app/logs/" +:+ name /\ no_slash name /\ name <> "".
Proof.
  unfold Path.entry_of. change LOG_DIR with "/app/logs".
  change (if String.eqb "/app/logs" "/" then "/app/logs" else "/app/logs" +:+ "/")
    with "/app/logs/".
  destruct (Json.expect "/app/logs/" p) as [r|] eqn:E; [|discriminate].
  apply expect_inv in E.
  destruct (String.eqb_spec r "") as [|Hr]; [discriminate|].
  cbn [orb]. destruct (JS.includes "/" r) eqn:Hs; [discriminate|].
  intros [= <-]. auto.
Qed.

Lemma access_log_is_an_entry_facts (w : world) :
  getLogFileName "access" w = "/app/logs/" +:+ access_log_name w
  /\ no_slash (access_log_name w)
  /\ is_access_log (access_log_name w) = true
  /\ getLogFileName "access" w <> LOG_DIR.
Proof.
  split; [apply getLogFileName_access|]. split; [apply access_log_name_no_slash|].
  split.
  - unfold is_access_log.
    destruct (access_log_name_tail w) as [front Ht]. rewrite Ht at 2.
    rewrite endsWith_app.
    destruct (access_log_name_head w) as [rest ->]. now rewrite startsWith_app.
  - rewrite getLogFileName_access.
    destruct (access_log_name_head w) as [rest ->]. discriminate.
Qed.

(** X8: the file of the access log of the day is the entry
    [access-YYYY-MM-DD.log] of the log directory, whatever the clock
    shows: the reader of named logs and the filter of the catalog accept
    its name, the reader opens this very file for the name, and the file
    is neither the card document nor the log directory. *)
Theorem access_log_is_an_entry_of_the_log_directory (w : world) :
  getLogFileName "access" w = "/app/logs/" +:+ access_log_name w
  /\ no_slash (access_log_name w)
  /\ is_access_log (access_log_name w) = true
  /\ Path.entry_of LOG_DIR (getLogFileName "access" w) = Some (access_log_name w)
  /\ Path.join [LOG_DIR; access_log_name w] = getLogFileName "access" w
  /\ getLogFileName "access" w <> DATA_FILE
  /\ getLogFileName "access" w <> LOG_DIR.
Proof.
  pose proof (access_log_name_no_slash w) as Hs.
  rewrite getLogFileName_access.
  split; [reflexivity|]. split; [exact Hs|]. split; [|split; [|split; [|split]]].
  - unfold is_access_log.
    destruct (access_log_name_tail w) as [front Ht]. rewrite Ht at 2.
    rewrite endsWith_app.
    destruct (access_log_name_head w) as [rest ->]. now rewrite startsWith_app.
  - apply entry_of_log_dir; [exact Hs|].
    destruct (access_log_name_head w) as [rest ->]; discriminate.
  - apply join_log_dir; [exact Hs| | |];
      destruct (access_log_name_head w) as [rest ->]; discriminate.
  - destruct (access_log_name_head w) as [rest ->]. discriminate.
  - destruct (access_log_name_head w) as [rest ->]. discriminate.
Qed.

Lemma appendFileSync_effect (p data : string) (d d' : Fs.disk) :
  Fs.appendFileSync p data d = Some d' ->
  exists old,
    (d !! p = Some (Fs.File old) \/ d !! p = None /\ old = "")
    /\ d' = <[p := Fs.File (old +:+ data)]> d.
Proof.
  unfold Fs.appendFileSync.
  destruct (d !! p) as [[old| |]|] eqn:E; try discriminate.
  - intros H. apply (inj Some) in H. subst d'. exists old. auto.
  - destruct (Fs.is_directory (Path.parent p) d); [|discriminate].
    intros H. apply (inj Some) in H. subst d'. exists "". auto.
Qed.

Lemma access_log_grows_by_one_line_facts (req : request) (w : world) (d : Fs.disk) :
  writeAccessLog req w = Some d ->
  exists old,
    Fs.readFileSync (getLogFileName "access" w) d = Some (old +:+ access_line req w)
    /\ (forall p, p <> getLogFileName "access" w -> d !! p = disk w !! p).
Proof.
  intros H. apply appendFileSync_effect in H. destruct H as (old & _ & ->).
  exists old. split.
  - unfold Fs.readFileSync. rewrite lookup_insert_eq. reflexivity.
  - intros p Hp. rewrite lookup_insert_ne by congruence. reflexivity.
Qed.

(** X9: appending a line for a request changes the file of the day and
    nothing else on the disk: the file holds what it held (nothing, if it
    was absent) followed by the line of the request. *)
Theorem access_log_grows_by_one_line (req : request) (w : world) (d : Fs.disk) :
  writeAccessLog req w = Some d ->
  exists old,
    (disk w !! getLogFileName "access" w = Some (Fs.File old)
     \/ disk w !! getLogFileName "access" w = None /\ old = "")
    /\ Fs.readFileSync (getLogFileName "access" w) d = Some (old +:+ access_line req w)
    /\ (forall p, p <> getLogFileName "access" w -> d !! p = disk w !! p)
    /\ d !! DATA_FILE = disk w !! DATA_FILE
    /\ JS.endsWith JS.newline_s (old +:+ access_line req w) = true.
Proof.
  intros H. apply appendFileSync_effect in H. destruct H as (old & Hold & ->).
  exists old. split; [exact Hold|]. split; [|split; [|split]].
  - unfold Fs.readFileSync. rewrite lookup_insert_eq. reflexivity.
  - intros p Hp. rewrite lookup_insert_ne by congruence. reflexivity.
  - rewrite lookup_insert_ne; [reflexivity|].
    rewrite getLogFileName_access.
    destruct (access_log_name_head w) as [rest ->]. discriminate.
  - unfold access_line. rewrite <- !app_assoc_s. apply endsWith_app.
Qed.

Lemma access_log_grows_by_one_line_witness :
  exists d,
    writeAccessLog (sample_request "GET" "/") (sample_world sample_disk) = Some d
    /\ Fs.readFileSync "/app/logs/access-2026-01-08.log" d
       = Some ("[2026/1/8 10:00:00] [IP: 1.2.3.4] [GET] / - " +:+ JS.quote_s +:+ "UA"
               +:+ JS.quote_s +:+ JS.newline_s).
Proof.
  assert (E : writeAccessLog (sample_request "GET" "/") (sample_world sample_disk)
              = Some logged_disk) by (vm_compute; reflexivity).
  exists logged_disk. split; [exact E|].
  destruct (access_log_grows_by_one_line _ _ _ E) as (old & [Hold|[_ ->]] & Hread & _).
  - vm_compute in Hold. discriminate Hold.
  - exact Hread.
Defined.
End LogPaths.

(** ** The log writer and the log readers *)

Section LogReaders.
Import App.
Variable localeCompare : string -> string -> Z.

Lemma readdir_names (d : Fs.disk) (names : list string) (f : string) :
  Fs.readdirSync LOG_DIR d = Some names ->
  (In f names <-> (exists n, d !! ("/app/logs/" +:+ f) = Some n) /\ no_slash f /\ f <> "").
Proof.
  unfold Fs.readdirSync. destruct (Fs.is_directory LOG_DIR d); [|discriminate].
  intros [= <-]. rewrite <- list_elem_of_In, list_elem_of_omap. split.
  - intros (p & Hp & He). apply entry_of_log_dir_inv in He. destruct He as (-> & Hs & H0).
    split; [|auto]. apply list_elem_of_In, in_map_iff in Hp.
    destruct Hp as ([q n] & Hq & Hin). cbn in Hq. subst q.
    exists n. now apply elem_of_map_to_list, list_elem_of_In.
  - intros ((n & Hn) & Hs & H0). exists ("/app/logs/" +:+ f). split.
    + apply list_elem_of_In, in_map_iff. exists ("/app/logs/" +:+ f, n). split; [reflexivity|].
      now apply list_elem_of_In, elem_of_map_to_list.
    + now apply entry_of_log_dir.
Qed.

Lemma list_log_files_In (names : list string) (f : string) :
  In f (list_log_files localeCompare names) <-> In f names /\ is_access_log f = true.
Proof.
  unfold list_log_files. rewrite <- filter_In. split; intros H.
  - exact (Permutation_in _ (sort_Permutation _ _) H).
  - exact (Permutation_in _ (Permutation_sym (sort_Permutation _ _)) H).
Qed.

Lemma get_log_reads (f : string) (req : request) (w : world) :
  is_access_log f = true -> no_slash f ->
  get_log f req w = send_log ("/app/logs/" +:+ f) "日志文件不存在" w.
Proof.
  intros Hf Hs. unfold get_log. unfold is_access_log in Hf.
  apply andb_prop in Hf. destruct Hf as [Hp He]. rewrite Hp, He. cbn [negb orb].
  apply startsWith_inv in Hp. destruct Hp as [rest ->].
  rewrite join_log_dir; [reflexivity|exact Hs|discriminate..].
Qed.

(** X10: a request that was logged can be read back at once: the reader of
    the log of the day and the reader of named logs, asked for the name of
    the day, both answer 200 with a text that ends with the line of the
    request, and the catalog lists the name. *)
Theorem logged_request_is_readable (req asking : request) (w : world) (d : Fs.disk) :
  writeAccessLog req w = Some d ->
  exists text,
    get_today_log asking (with_disk w d)
    = Eff (Reply (Res 200 (TextBody text))) d [Fs.ReadFile (getLogFileName "access" w)]
    /\ get_log (access_log_name w) asking (with_disk w d)
       = Eff (Reply (Res 200 (TextBody text))) d [Fs.ReadFile (getLogFileName "access" w)]
    /\ JS.endsWith (access_line req w) text = true
    /\ (Fs.is_directory LOG_DIR (disk w) = true ->
        exists names,
          Fs.readdirSync LOG_DIR d = Some names
          /\ In (access_log_name w) (list_log_files localeCompare names)).
Proof.
  intros Hw.
  destruct (access_log_grows_by_one_line_facts req w d Hw) as (old & Hread & Hother).
  destruct (access_log_is_an_entry_facts w) as (Hfile & Hs & Hshape & Hdir).
  exists (old +:+ access_line req w). split; [|split; [|split]].
  - unfold get_today_log, send_log.
    rewrite getLogFileName_with_disk, disk_with_disk. now rewrite Hread.
  - rewrite (get_log_reads _ _ _ Hshape Hs), <- Hfile. unfold send_log.
    rewrite disk_with_disk. now rewrite Hread.
  - apply endsWith_app.
  - intros Hd.
    assert (Hd' : Fs.is_directory LOG_DIR d = true).
    { unfold Fs.is_directory in *. now rewrite (Hother LOG_DIR (not_eq_sym Hdir)). }
    exists (default [] (Fs.readdirSync LOG_DIR d)).
    assert (Hn : Fs.readdirSync LOG_DIR d = Some (default [] (Fs.readdirSync LOG_DIR d))).
    { unfold Fs.readdirSync. now rewrite Hd'. }
    split; [exact Hn|]. apply list_log_files_In. split; [|exact Hshape].
    apply (readdir_names _ _ _ Hn). split; [|split; [exact Hs|]].
    + exists (Fs.File (old +:+ access_line req w)). rewrite <- Hfile.
      unfold Fs.readFileSync in Hread.
      destruct (d !! getLogFileName "access" w) as [[c| |]|]; congruence.
    + destruct (access_log_name_head w) as [rest ->]. discriminate.
Qed.

(** X11: every name that the catalog lists is one the reader of named logs
    serves: the name passes the check of the reader, the reader opens the
    entry of that name in the log directory, which exists, and answers 200
    with its content when it is a file. *)
Theorem listed_logs_are_served (req : request) (w : world) (names : list string)
        (f : string) :
  Fs.readdirSync LOG_DIR (disk w) = Some names ->
  In f (list_log_files localeCompare names) ->
  exists n,
    disk w !! ("/app/logs/" +:+ f) = Some n
    /\ calls_of (get_log f req w) = [Fs.ReadFile ("/app/logs/" +:+ f)]
    /\ disk_of (get_log f req w) = disk w
    /\ step_of (get_log f req w)
       = match n with
         | Fs.File text => Reply (Res 200 (TextBody text))
         | _ => Reply (Res 404 (TextBody "日志文件不存在"))
         end.
Proof.
  intros Hdir Hin. apply list_log_files_In in Hin. destruct Hin as [Hin Hshape].
  apply (readdir_names _ _ _ Hdir) in Hin. destruct Hin as ((n & Hn) & Hs & H0).
  exists n. split; [exact Hn|].
  rewrite (get_log_reads _ _ _ Hshape Hs). unfold send_log, Fs.readFileSync. rewrite Hn.
  destruct n; auto.
Qed.

End LogReaders.

Section LogReaderExamples.
Import App.

Lemma logged_request_is_readable_witness :
  exists d text,
    writeAccessLog (sample_request "GET" "/") (sample_world sample_disk) = Some d
    /\ get_log "access-2026-01-08.log" (sample_request "GET" "/api/logs/access-2026-01-08.log")
         (with_disk (sample_world sample_disk) d)
       = Eff (Reply (Res 200 (TextBody text))) d
             [Fs.ReadFile "/app/logs/access-2026-01-08.log"].
Proof.
  assert (E : writeAccessLog (sample_request "GET" "/") (sample_world sample_disk)
              = Some logged_disk) by (vm_compute; reflexivity).
  destruct (logged_request_is_readable compare_code_units (sample_request "GET" "/")
              (sample_request "GET" "/api/logs/access-2026-01-08.log") _ _ E)
    as (text & _ & Hnamed & _).
  exists logged_disk, text. split; [exact E|exact Hnamed].
Defined.

Lemma listed_logs_are_served_witness :
  exists n,
    log_dir_disk !! "/app/logs/access-2025-12-31.log" = Some n
    /\ step_of (get_log "access-2025-12-31.log" (sample_request "GET" "/")
                  (sample_world log_dir_disk))
       = match n with
         | Fs.File text => Reply (Res 200 (TextBody text))
         | _ => Reply (Res 404 (TextBody "日志文件不存在"))
         end.
Proof.
  destruct (listed_logs_are_served compare_code_units (sample_request "GET" "/") (sample_world log_dir_disk)
              log_dir_names "access-2025-12-31.log") as (n & Hn & _ & _ & Hstep).
  - vm_compute. reflexivity.
  - vm_compute. auto.
  - exists n. split; [exact Hn|exact Hstep].
Defined.
End LogReaderExamples.

(** ** What a request can do to the disk *)

Section Requests.
Import App.
Variable bodyParser_json : request -> option Z.
Variable express_static : request -> Fs.disk -> option response.
Variable localeCompare : string -> string -> Z.

(** What holds of the disk before the layers run, and is kept by every
    handler that takes the request, holds of the disk they leave. *)
Lemma run_invariant (P : Fs.disk -> Prop) (req : request) (w : world)
      (stack : list layer) :
  (forall l h, In l stack -> serves l req = Some h ->
               forall d, P d -> P (disk_of (h req (with_disk w d)))) ->
  forall err d cs vs, P d -> P (final_disk (run stack req w err d cs vs)).
Proof.
  induction stack as [|l stack IH]; intros Hl err d cs vs Hd.
  - cbn [run]. now destruct err.
  - assert (Hrest : forall err d cs vs,
               P d -> P (final_disk (run stack req w err d cs vs))).
    { apply IH. intros l' h Hin. apply Hl. now right. }
    assert (Hfin : forall name h, serves l req = Some h ->
               P (final_disk (finish name (h req (with_disk w d)) cs vs (run stack req w)))).
    { intros name h Hs. pose proof (Hl l h (or_introl eq_refl) Hs d Hd) as Hh.
      unfold finish. destruct (step_of (h req (with_disk w d))); cbn [final_disk]; auto. }
    destruct l as [name h|name h|m pat name h]; cbn [run].
    + destruct err; [now apply Hrest|now apply Hfin].
    + destruct err; [now apply Hfin|now apply Hrest].
    + destruct err; [now apply Hrest|].
      cbn [serves] in Hfin.
      destruct (method_matches m (method req)); [|now apply Hrest].
      destruct (match_path pat (path_of (originalUrl req))); [now apply Hrest| |now apply Hrest].
      now apply Hfin.
Qed.

(** The [fs] calls and the layers that ran are only added to. *)
Lemma run_extends (req : request) (w : world) (stack : list layer) :
  forall err d cs vs,
    exists cs' vs',
      calls (run stack req w err d cs vs) = cs ++ cs'
      /\ visited (run stack req w err d cs vs) = vs ++ vs'.
Proof.
  induction stack as [|l stack IH]; intros err d cs vs.
  - exists [], []. cbn [run]. destruct err; cbn; now rewrite !app_nil_r.
  - assert (Hfin : forall name e,
               exists cs' vs',
                 calls (finish name e cs vs (run stack req w)) = cs ++ cs'
                 /\ visited (finish name e cs vs (run stack req w)) = vs ++ vs').
    { intros name e. unfold finish. destruct (step_of e).
      - destruct (IH None (disk_of e) (cs ++ calls_of e) (vs ++ [name]))
          as (cs' & vs' & -> & ->).
        exists (calls_of e ++ cs'), ([name] ++ vs'). now rewrite !app_assoc.
      - destruct (IH (Some status0) (disk_of e) (cs ++ calls_of e) (vs ++ [name]))
          as (cs' & vs' & -> & ->).
        exists (calls_of e ++ cs'), ([name] ++ vs'). now rewrite !app_assoc.
      - exists (calls_of e), [name]. split; reflexivity. }
    destruct l as [name h|name h|m pat name h]; cbn [run].
    + destruct err; [apply IH|apply Hfin].
    + destruct err; [apply Hfin|apply IH].
    + destruct err; [apply IH|].
      destruct (method_matches m (method req)); [|apply IH].
      destruct (match_path pat (path_of (originalUrl req))); [apply IH|apply Hfin|apply IH].
Qed.

Lemma log_middleware_keeps (p : string) (req : request) (w : world) :
  p <> getLogFileName "access" w ->
  disk_of (log_middleware req w) !! p = disk w !! p.
Proof.
  intros Hp. unfold log_middleware.
  destruct (writeAccessLog req w) as [d|] eqn:E; [|reflexivity].
  destruct (access_log_grows_by_one_line_facts _ _ _ E) as (old & _ & Hother).
  now apply Hother.
Qed.

Lemma data_file_is_no_log (w : world) : DATA_FILE <> getLogFileName "access" w.
Proof.
  rewrite getLogFileName_access.
  destruct (access_log_name_head w) as [rest ->]. discriminate.
Qed.

Lemma post_cards_disk (req : request) (w : world) :
  disk_of (post_cards req w) = disk w
  \/ disk_of (post_cards req w)
     = <[DATA_FILE := Fs.File (Json.stringify (body req))]> (disk w).
Proof.
  unfold post_cards, Fs.writeFileSync.
  destruct (disk w !! DATA_FILE) as [[c| |]|]; auto.
  destruct (Fs.is_directory (Path.parent DATA_FILE) (disk w)); auto.
Qed.

(** The layers behind the log writer: the handler of [POST /api/cards],
    which runs only for that method and path, or one that leaves the disk
    as it is. *)
Lemma later_layers (l : layer) (h : handler) (req : request) :
  In l (skipn 2 (app bodyParser_json express_static localeCompare)) ->
  serves l req = Some h ->
  (h = post_cards /\ method req = "POST"
   /\ lower (strip_slash (path_of (originalUrl req))) = "/api/cards")
  \/ forall w, disk_of (h req w) = disk w.
Proof.
  unfold app. cbn [skipn In].
  intros Hin Hs.
  repeat (destruct Hin as [<-|Hin]; [cbn [serves] in Hs|]); try contradiction;
    repeat match type of Hs with
           | (if ?c then _ else _) = Some _ => destruct c eqn:?; [|discriminate]
           | match ?m with _ => _ end = Some _ => destruct m eqn:?; try discriminate
           end;
    injection Hs as <-;
    try (right; intros w; reflexivity).
  - right. intros w. unfold static_files. now destruct (express_static req (disk w)).
  - right. intros w. unfold get_cards.
    destruct (Fs.readFileSync DATA_FILE (disk w)); [|reflexivity].
    now destruct (Json.parse s).
  - left. split; [reflexivity|]. split.
    + unfold method_matches in *. cbn [String.eqb Ascii.eqb Bool.eqb andb] in *.
      rewrite orb_false_r in *.
      match goal with H : String.eqb (method req) _ = true |- _ =>
        now apply String.eqb_eq in H end.
    + unfold match_path in *.
      match goal with H : (if ?c then _ else _) = Match _ |- _ =>
        destruct c eqn:E; [|discriminate] end.
      now apply String.eqb_eq in E.
  - right. intros w. unfold post_sync. now destruct (Sync.failed _).
  - right. intros w. unfold get_log_files. now destruct (Fs.readdirSync LOG_DIR (disk w)).
  - right. intros w. unfold get_log, send_log.
    destruct (negb _ || negb _)%bool; [reflexivity|].
    now destruct (Fs.readFileSync _ (disk w)).
  - right. intros w. unfold get_today_log, send_log.
    now destruct (Fs.readFileSync _ (disk w)).
Qed.

(** X12: a request whose body the body parser rejects is answered by the
    error handler with status 500, whatever the status of the parser's
    error; the request is not logged and reaches no route. *)
Theorem rejected_body_is_not_logged (req : request) (w : world) (st : Z) :
  bodyParser_json req = Some st ->
  handle bodyParser_json express_static localeCompare req w
  = Out server_error (disk w) [] ["bodyParser.json"; "error handler"].
Proof.
  intros Hbody. unfold handle, app.
  rewrite run_use, with_disk_same. unfold body_parser at 1. rewrite Hbody.
  unfold finish at 1. cbn [step_of disk_of calls_of].
  change (run (Use "access log" log_middleware :: ?rest) req w (Some st) ?d ?cs ?vs)
    with (run rest req w (Some st) d cs vs).
  rewrite run_error, with_disk_same. reflexivity.
Qed.

(** X13: whatever the request, the server changes nothing on the disk but
    the access log of the day and the card document; and the card document
    changes only when the method of the request is [POST] (and, for a
    target in origin form, its path is [/api/cards]), and then to the
    serialised body of the request. *)
Theorem request_changes_two_files_at_most (req : request) (w : world) :
  let out := handle bodyParser_json express_static localeCompare req w in
  cards_kept_or_posted req (disk w) (final_disk out)
  /\ forall p, p <> getLogFileName "access" w -> p <> DATA_FILE ->
               final_disk out !! p = disk w !! p.
Proof.
  cbv zeta. unfold handle.
  apply (run_invariant
           (fun d => cards_kept_or_posted req (disk w) d
                     /\ forall p, p <> getLogFileName "access" w -> p <> DATA_FILE ->
                                  d !! p = disk w !! p)).
  - intros l h Hin Hs d [Hcards Hrest].
    assert (Hcases : l = Use "bodyParser.json" (body_parser bodyParser_json)
                     \/ l = Use "access log" log_middleware
                     \/ In l (skipn 2 (app bodyParser_json express_static localeCompare))).
    { unfold app in Hin. cbn [In] in Hin. unfold app. cbn [skipn In].
      destruct Hin as [<-|[<-|Hin]]; auto. }
    destruct Hcases as [->|[->|Hlater]].
    + injection Hs as <-. unfold body_parser.
      destruct (bodyParser_json req); cbn [disk_of]; auto.
    + injection Hs as <-. split.
      * assert (Hkeep : disk_of (log_middleware req (with_disk w d)) !! DATA_FILE
                          = d !! DATA_FILE).
        { rewrite log_middleware_keeps by apply data_file_is_no_log.
          now rewrite disk_with_disk. }
        destruct Hcards as [Hc|(Hm & Hp & Hc)]; [left|right; split; [|split]]; trivial;
          rewrite Hkeep; exact Hc.
      * intros p Hp Hd.
        rewrite log_middleware_keeps by (now rewrite getLogFileName_with_disk).
        rewrite disk_with_disk. now apply Hrest.
    + destruct (later_layers l h req Hlater Hs) as [(-> & Hm & Hp)|Hsame].
      * destruct (post_cards_disk req (with_disk w d)) as [->| ->];
          rewrite disk_with_disk; [auto|]. split.
        -- right. split; [exact Hm|]. split; [intros _; exact Hp|].
           now rewrite lookup_insert_eq.
        -- intros p Hp' Hd. rewrite lookup_insert_ne by congruence. now apply Hrest.
      * rewrite Hsame, disk_with_disk. auto.
  - split; [now left|reflexivity].
Qed.

(** X14: a request that the body parser lets through is logged before any
    other access to the disk, and no later layer touches the log: when the
    append succeeds, the log of the day ends, after the request, with the
    line of the request. *)
Theorem served_request_stays_logged (req : request) (w : world) (d : Fs.disk) :
  bodyParser_json req = None ->
  writeAccessLog req w = Some d ->
  let out := handle bodyParser_json express_static localeCompare req w in
  exists text more layers,
    Fs.readFileSync (getLogFileName "access" w) (final_disk out) = Some text
    /\ JS.endsWith (access_line req w) text = true
    /\ calls out = Fs.AppendFileSync (getLogFileName "access" w) :: more
    /\ visited out = "bodyParser.json" :: "access log" :: layers.
Proof.
  intros Hbody Hlog. cbv zeta. unfold handle.
  set (file := getLogFileName "access" w).
  assert (Hstart : run (app bodyParser_json express_static localeCompare)
                       req w None (disk w) [] []
                   = run (skipn 2 (app bodyParser_json express_static localeCompare))
                         req w None d [Fs.AppendFileSync file]
                         ["bodyParser.json"; "access log"]).
  { unfold app. cbn [skipn].
    rewrite run_use, with_disk_same. unfold body_parser at 1. rewrite Hbody.
    unfold finish at 1. cbn [step_of disk_of calls_of].
    rewrite run_use, with_disk_same. unfold log_middleware at 1. rewrite Hlog.
    unfold finish at 1. cbn [step_of disk_of calls_of]. reflexivity. }
  rewrite Hstart.
  destruct (access_log_grows_by_one_line_facts _ _ _ Hlog) as (old & Hread & _).
  fold file in Hread.
  exists (old +:+ access_line req w).
  destruct (run_extends req w (skipn 2 (app bodyParser_json express_static localeCompare))
              None d [Fs.AppendFileSync file] ["bodyParser.json"; "access log"])
    as (more & layers & Hcalls & Hvisited).
  exists more, layers. split; [|split; [apply endsWith_app|split; assumption]].
  apply (run_invariant (fun d' => Fs.readFileSync file d' = Some (old +:+ access_line req w)));
    [|exact Hread].
  intros l h Hin Hs d' Hd'.
  destruct (later_layers l h req Hin Hs) as [(-> & _)|Hsame].
  - destruct (post_cards_disk req (with_disk w d')) as [->| ->];
      rewrite disk_with_disk; [exact Hd'|].
    unfold Fs.readFileSync in *. rewrite lookup_insert_ne; [exact Hd'|].
    apply data_file_is_no_log.
  - rewrite Hsame, disk_with_disk. exact Hd'.
Qed.

(** X15: the password check answers [success: true] exactly when the body
    holds, under [password], a string equal to the configured password;
    that password is never empty (an empty setting means [admin]), so an
    empty or absent password is never accepted; the disk is not touched. *)
Theorem password_check_is_strict (req : request) (w : world) :
  exists ok,
    verify_password req w = Eff (json (success ok)) (disk w) []
    /\ (ok = true <-> Json.get "password" (body req) = Some (Json.Str (ADMIN_PASSWORD w)))
    /\ ADMIN_PASSWORD w <> ""
    /\ (Json.get "password" (body req) = Some (Json.Str "") -> ok = false)
    /\ (Json.get "password" (body req) = None -> ok = false).
Proof.
  assert (Hne : ADMIN_PASSWORD w <> "").
  { unfold ADMIN_PASSWORD. destruct (ADMIN_PASSWORD_env w) as [v|]; [|discriminate].
    destruct (String.eqb_spec v ""); [discriminate|assumption]. }
  unfold verify_password. eexists. split; [reflexivity|].
  destruct (Json.get "password" (body req)) as [[| | |x| |]|];
    try (split; [split; [discriminate|discriminate]|]; repeat split; auto; discriminate).
  split; [|split; [exact Hne|split; [|discriminate]]].
  - split; intros H.
    + apply String.eqb_eq in H. now subst.
    + injection H as ->. apply String.eqb_refl.
  - intros [= ->]. apply String.eqb_neq. auto.
Qed.
End Requests.

Section RequestExamples.
Import App.

Lemma rejected_body_is_not_logged_witness :
  handle (fun _ => Some 400) (fun _ _ => None) compare_code_units
         (sample_request "POST" "/api/cards") (sample_world sample_disk)
  = Out server_error sample_disk [] ["bodyParser.json"; "error handler"].
Proof.
  apply (rejected_body_is_not_logged (fun _ => Some 400) (fun _ _ => None)
           compare_code_units (sample_request "POST" "/api/cards")
           (sample_world sample_disk) 400).
  reflexivity.
Defined.

Lemma served_request_stays_logged_witness :
  exists d text more layers,
    writeAccessLog (sample_request "POST" "/api/cards") (sample_world sample_disk) = Some d
    /\ Fs.readFileSync "/app/logs/access-2026-01-08.log"
         (final_disk (handle (fun _ => None) (fun _ _ => None) compare_code_units
                        (sample_request "POST" "/api/cards") (sample_world sample_disk)))
       = Some text
    /\ calls (handle (fun _ => None) (fun _ _ => None) compare_code_units
                (sample_request "POST" "/api/cards") (sample_world sample_disk))
       = Fs.AppendFileSync "/app/logs/access-2026-01-08.log" :: more
    /\ visited (handle (fun _ => None) (fun _ _ => None) compare_code_units
                  (sample_request "POST" "/api/cards") (sample_world sample_disk))
       = "bodyParser.json" :: "access log" :: layers.
Proof.
  assert (E : writeAccessLog (sample_request "POST" "/api/cards") (sample_world sample_disk)
              = Some posted_disk) by (vm_compute; reflexivity).
  destruct (served_request_stays_logged (fun _ => None) (fun _ _ => None) compare_code_units
              (sample_request "POST" "/api/cards") (sample_world sample_disk) _
              eq_refl E) as (text & more & layers & Hread & _ & Hcalls & Hvisited).
  exists posted_disk, text, more, layers. split; [exact E|]. split; [exact Hread|].
  split; [exact Hcalls|exact Hvisited].
Defined.
End RequestExamples.

(** ** The runs of [sync.js] *)

Section SyncRuns.
Import Sync.

Lemma includes_app_r (p a b : string) :
  JS.includes p b = true -> JS.includes p (a +:+ b) = true.
Proof.
  intros H. induction a as [|c a IH]; [exact H|].
  change (String c a +:+ b) with (String c (a +:+ b)).
  rewrite includes_cons, IH. apply orb_true_r.
Qed.

Lemma answered_inv (r : reply) :
  match githubRequest r with
  | Resolved _ => exists statusCode body, r = Response statusCode body /\ statusCode < 400
  | ResolvedBeyond _ =>
      exists statusCode body, r = Response statusCode body /\ statusCode < 400
  | Pending => r = Aborted
  | _ => True
  end.
Proof.
  destruct r as [m|st body|]; cbn [githubRequest]; trivial.
  destruct (Z.geb_spec st 400); [trivial|].
  cbv zeta. destruct (Json.parse _); trivial; exists st, body; split; trivial; lia.
Qed.

Lemma commitData_fields (t localData : string) (info : option Json.value) :
  Json.get "content" (commitData t localData info) = Some (Json.Str (base64 localData))
  /\ Json.get "branch" (commitData t localData info) = Some (Json.Str "main").
Proof.
  unfold commitData. destruct info as [i|]; [|split; reflexivity].
  destruct (Json.truthy i); [|split; reflexivity].
  destruct (Json.get "sha" i); split; reflexivity.
Qed.

Lemma submit_zero (w : world) (localData : string) (put : request) (payload : Json.value) :
  method put = "PUT" ->
  data put = Some payload ->
  Json.get "content" payload = Some (Json.Str (base64 localData)) ->
  Json.get "branch" payload = Some (Json.Str "main") ->
  exit_code (submit w put) = 0 ->
  put_answered w localData (submit w put) \/ cut_off w (submit w put).
Proof.
  intros Hm Hd Hc Hb H0.
  pose proof (answered_inv (remote w put)) as Hr.
  unfold submit in *.
  destruct (githubRequest (remote w put)) as [v|t|m| |]; try discriminate H0.
  - left. destruct Hr as (st & body & Hr & Hst). now exists put, payload, st, body.
  - left. destruct Hr as (st & body & Hr & Hst). now exists put, payload, st, body.
  - right. exists [fetch_of w], put. auto.
Qed.

Lemma main_zero (w : world) :
  exit_code (main w) = 0 ->
  exists localData,
    Fs.readFileSync DATA_FILE_PATH (disk w) = Some localData
    /\ localData <> ""
    /\ falsy (GITHUB_TOKEN w) = false
    /\ falsy (GITHUB_REPO w) = false
    /\ (put_answered w localData (main w) \/ cut_off w (main w)).
Proof.
  unfold main.
  destruct (falsy (GITHUB_TOKEN w)); [discriminate|].
  destruct (falsy (GITHUB_REPO w)); [discriminate|]. cbn [orb].
  destruct (negb _ || _)%bool; [discriminate|].
  unfold sync.
  destruct (Fs.readFileSync DATA_FILE_PATH (disk w)) as [localData|]; [|discriminate].
  destruct (String.eqb_spec localData ""); [discriminate|].
  intros H. exists localData. repeat (split; [auto; fail|]).
  pose proof (answered_inv (remote w (fetch_of w))) as Hfetch.
  destruct (githubRequest (remote w (fetch_of w))) as [info|text|m| |];
    try discriminate H.
  - destruct (commitData_fields (localeTime w) localData (Some info)) as [Hc Hb].
    exact (submit_zero w localData (put_of w _) _ eq_refl eq_refl Hc Hb H).
  - destruct (commitData_fields (localeTime w) localData None) as [Hc Hb].
    exact (submit_zero w localData (put_beyond_of w _ _) _ eq_refl eq_refl Hc Hb H).
  - destruct (JS.includes "[404]" m); [|discriminate].
    destruct (commitData_fields (localeTime w) localData None) as [Hc Hb].
    exact (submit_zero w localData (put_of w _) _ eq_refl eq_refl Hc Hb H).
  - right. exists [], (fetch_of w). auto.
Qed.

(** X16: the run sends no request exactly when a configuration variable is
    unset or empty, or the card document is absent, a directory, unreadable
    or empty; it then ends with the exit code 1.  In every other case the
    first request is the metadata fetch, and there are two requests at
    most. *)
Theorem sync_sends_nothing_iff (w : world) :
  (sent (main w) = [] <-> nothing_to_send w)
  /\ (sent (main w) = [] -> ending_of (main w) = Exit 1)
  /\ (sent (main w) <> [] ->
      exists others, sent (main w) = fetch_of w :: others /\ (List.length others <= 1)%nat).
Proof.
  unfold nothing_to_send, main, Fs.existsSync, Fs.is_directory, sync, Fs.readFileSync.
  destruct (falsy (GITHUB_TOKEN w)); [cbn; intuition congruence|].
  destruct (falsy (GITHUB_REPO w)); [cbn; intuition congruence|]. cbn [orb].
  destruct (disk w !! DATA_FILE_PATH) as [[c| |]|]; cbn [negb orb];
    try (cbn; intuition congruence).
  destruct (String.eqb_spec c "") as [->|Hc]; [cbn; intuition congruence|].
  assert (Hne : forall r : run,
             (exists others, sent r = fetch_of w :: others /\ (List.length others <= 1)%nat) ->
             (sent r = [] <->
              false = true \/ false = true \/ Some c = None \/ Some c = Some "")
             /\ (sent r = [] -> ending_of r = Exit 1)
             /\ (sent r <> [] ->
                 exists others,
                   sent r = fetch_of w :: others /\ (List.length others <= 1)%nat)).
  { intros r (others & Hs & Hl). rewrite Hs. split; [|split].
    - split; [discriminate|]. intros [|[|[|]]]; congruence.
    - discriminate.
    - intros _. now exists others. }
  apply Hne.
  destruct (githubRequest (remote w (fetch_of w))) as [info|text|m| |].
  - rewrite sent_push. eexists. split; [reflexivity|]. cbn. lia.
  - rewrite sent_submit. eexists. split; [reflexivity|]. cbn. lia.
  - destruct (JS.includes "[404]" m).
    + rewrite sent_push. eexists. split; [reflexivity|]. cbn. lia.
    + exists []. split; [reflexivity|]. cbn. lia.
  - exists []. split; [reflexivity|]. cbn. lia.
  - exists []. split; [reflexivity|]. cbn. lia.
Qed.

(** X17: the run ends with the exit code 0 only in two ways.  Both
    configuration variables are set and the card document is a non-empty
    file; and either the run sent the fetch and then a [PUT] that carries
    the document in base64 for the branch [main] and was answered with a
    status below 400, which need not mean that the remote stored the
    file, or a response of the remote broke off. *)
Theorem sync_exit_zero_characterised (w : world) :
  exit_code (main w) = 0 ->
  exists localData,
    Fs.readFileSync DATA_FILE_PATH (disk w) = Some localData
    /\ localData <> ""
    /\ falsy (GITHUB_TOKEN w) = false
    /\ falsy (GITHUB_REPO w) = false
    /\ (put_answered w localData (main w) \/ cut_off w (main w)).
Proof. apply main_zero. Qed.

Lemma sync_exit_zero_characterised_witness :
  (exists localData,
      Fs.readFileSync DATA_FILE_PATH (disk redirecting_remote) = Some localData
      /\ (put_answered redirecting_remote localData (main redirecting_remote)
          \/ cut_off redirecting_remote (main redirecting_remote)))
  /\ (exists localData,
         Fs.readFileSync DATA_FILE_PATH (disk aborting_remote) = Some localData
         /\ (put_answered aborting_remote localData (main aborting_remote)
             \/ cut_off aborting_remote (main aborting_remote))).
Proof.
  split.
  - destruct (sync_exit_zero_characterised redirecting_remote)
      as (localData & Hr & _ & _ & _ & Hp).
    + vm_compute. reflexivity.
    + exists localData. split; [exact Hr|exact Hp].
  - destruct (sync_exit_zero_characterised aborting_remote)
      as (localData & Hr & _ & _ & _ & Hp).
    + vm_compute. reflexivity.
    + exists localData. split; [exact Hr|exact Hp].
Defined.

(** X18: the fetch counts as a not-found whenever the message of its error
    holds the text [[404]]: an error answer of any status whose body quotes
    that text, and a network error whose message does, make the run go on
    and send the create call without a [sha]. *)
Theorem not_found_is_read_off_the_message (w : world) (localData : string) :
  Fs.readFileSync DATA_FILE_PATH (disk w) = Some localData ->
  localData <> "" ->
  (exists statusCode body,
      remote w (fetch_of w) = Response statusCode body
      /\ 400 <= statusCode /\ JS.includes "[404]" body = true)
  \/ (exists message,
         remote w (fetch_of w) = NetworkError message
         /\ JS.includes "[404]" message = true) ->
  sent (sync w) = [fetch_of w; put_of w (Json.Obj (base_payload w localData))].
Proof.
  intros Hread Hne Hreply. unfold sync. rewrite Hread.
  destruct (String.eqb_spec localData ""); [contradiction|].
  destruct Hreply as [(st & body & -> & Hst & Hb)|(m & -> & Hm)]; unfold githubRequest at 1.
  - destruct (Z.geb_spec st 400); [|lia].
    unfold api_error.
    rewrite (includes_app_r "[404]" _ _
               (includes_app_r "[404]" _ _ (includes_app_r "[404]" _ _ Hb))).
    rewrite sent_push. reflexivity.
  - rewrite Hm, sent_push. reflexivity.
Qed.

Lemma not_found_is_read_off_the_message_witness :
  remote confused_remote (fetch_of confused_remote) = Response 502 "upstream answered [404]"
  /\ sent (sync confused_remote)
     = [fetch_of confused_remote;
        put_of confused_remote (Json.Obj (base_payload confused_remote "[]"))].
Proof.
  split; [reflexivity|].
  apply (not_found_is_read_off_the_message confused_remote "[]").
  - reflexivity.
  - discriminate.
  - left. exists 502, "upstream answered [404]".
    split; [reflexivity|]. split; [lia|reflexivity].
Defined.

(** X19: the route of the synchronisation leaves the disk as it is and
    reports the exit code of the script: [success: false] for a code other
    than 0, [success: true] for the code 0.  The code 0 tells that the
    script has read the card document, the file that the route of the
    cards writes, and that its [PUT] was answered with a status below 400
    or that a response of the remote broke off; it does not tell that the
    remote stored the document. *)
Theorem sync_route_reports_the_exit_code (req : App.request) (w : App.world) :
  let sw := World (App.GITHUB_TOKEN w) (App.GITHUB_REPO w) (App.disk w) (App.remote w)
                  (App.localeTime w) in
  App.disk_of (App.post_sync req w) = App.disk w
  /\ App.calls_of (App.post_sync req w) = []
  /\ (App.step_of (App.post_sync req w) = App.json (App.failure "同步失败")
      /\ exit_code (main sw) <> 0
      \/ App.step_of (App.post_sync req w)
         = App.json (Json.Obj [("success", Json.Bool true); ("message", Json.Str "同步成功")])
         /\ exit_code (main sw) = 0
         /\ exists localData,
              Fs.readFileSync App.DATA_FILE (App.disk w) = Some localData
              /\ localData <> ""
              /\ (put_answered sw localData (main sw) \/ cut_off sw (main sw))).
Proof.
  cbv zeta. unfold App.post_sync.
  set (sw := World _ _ _ _ _).
  unfold failed. destruct (Z.eqb_spec (exit_code (main sw)) 0) as [H0|H0]; cbn [negb].
  - split; [reflexivity|]. split; [reflexivity|]. right. split; [reflexivity|].
    split; [exact H0|].
    destruct (main_zero sw H0) as (localData & Hr & Hne & _ & _ & Hp).
    exists localData. auto.
  - split; [reflexivity|]. split; [reflexivity|]. left. split; [reflexivity|exact H0].
Qed.
End SyncRuns.

(** ** The filter of the log viewer *)

Section ViewerFilter.
Import LogViewer.

Lemma prefix_chars (p s : string) (post : list ascii) :
  JS.chars s = JS.chars p ++ post -> String.prefix p s = true.
Proof.
  revert s. induction p as [|c p IH]; intros s H; [now destruct s|].
  destruct s as [|x s]; [discriminate|].
  cbn [JS.chars app] in H. injection H as -> H.
  change (String.prefix (String c p) (String c s))
    with (if ascii_dec c c then String.prefix p s else false).
  destruct (ascii_dec c c); [now apply IH|contradiction].
Qed.

Lemma includes_chars (p s : string) (pre post : list ascii) :
  JS.chars s = pre ++ JS.chars p ++ post -> JS.includes p s = true.
Proof.
  revert s. induction pre as [|x pre IH]; intros s H.
  - cbn [app] in H. apply prefix_chars in H.
    destruct s as [|c s].
    + destruct p; [reflexivity|discriminate].
    + rewrite includes_cons, H. reflexivity.
  - destruct s as [|c s]; [discriminate|].
    cbn [JS.chars app] in H. injection H as -> H.
    rewrite includes_cons, (IH _ H). apply orb_true_r.
Qed.

Lemma filter_length_le {A : Type} (f g : A -> bool) (l : list A) :
  (forall x, In x l -> f x = true -> g x = true) ->
  (List.length (List.filter f l) <= List.length (List.filter g l))%nat.
Proof.
  induction l as [|x r IH]; intros H; cbn [List.filter]; [lia|].
  assert (Hr : (List.length (List.filter f r) <= List.length (List.filter g r))%nat).
  { apply IH. intros y Hy. apply H. now right. }
  destruct (f x) eqn:Hf.
  - rewrite (H x (or_introl eq_refl) Hf). cbn [List.length]. lia.
  - destruct (g x); cbn [List.length]; lia.
Qed.

(** X20: filtering by an IP of the statistics shows every line that was
    counted for it: a line whose IP token is [ip] contains [ip], so the
    filter keeps it, and the filter keeps at least as many lines as the
    count of [ip].  It can keep more: a line is kept when it contains the
    text of [ip] anywhere, also inside a longer address. *)
Theorem filter_shows_the_counted_lines (rawLogData ip : string) :
  (forall line,
      In line (log_lines rawLogData) -> first_ip line = Some ip ->
      In line (filteredLines rawLogData ip))
  /\ occurrences ip (log_lines rawLogData)
     <= Z.of_nat (List.length (filteredLines rawLogData ip))
  /\ (occurrences "1.2.3.4" (log_lines ("11.2.3.45" +:+ JS.newline_s +:+ "1.2.3.4")) = 1
      /\ List.length (filteredLines ("11.2.3.45" +:+ JS.newline_s +:+ "1.2.3.4") "1.2.3.4")
         = 2%nat).
Proof.
  assert (Hinc : forall line, first_ip line = Some ip -> JS.includes ip line = true).
  { intros line H. unfold first_ip, JS.first_match in H.
    apply first_match_from_sound in H. destruct H as [_ (pre & post & Hpart)].
    exact (includes_chars _ _ _ _ Hpart). }
  split; [|split].
  - intros line Hin Hip. unfold filteredLines. apply filter_In. split.
    + unfold log_lines in Hin. apply filter_In in Hin. tauto.
    + now apply Hinc.
  - unfold occurrences, filteredLines, log_lines. apply inj_le.
    set (f := fun line => match first_ip line with
                          | Some x => String.eqb x ip
                          | None => false
                          end).
    transitivity (List.length (List.filter f (JS.split JS.newline rawLogData))).
    + clear. induction (JS.split JS.newline rawLogData) as [|x r IH]; cbn [List.filter]; [lia|].
      destruct (JS.trim_truthy x); cbn [List.filter]; destruct (f x); cbn [List.length]; lia.
    + apply filter_length_le. intros line _ Hf. unfold f in Hf.
      destruct (first_ip line) as [x|] eqn:E; [|discriminate].
      apply String.eqb_eq in Hf. subst x. now apply Hinc.
  - split; vm_compute; reflexivity.
Qed.
End ViewerFilter.

(** ** The log catalog *)

Section CatalogNames.
Import App.
#[local] Arguments String.append _ _ : simpl nomatch.












End CatalogNames.

Section LogCatalog.
Import App.
Variable localeCompare : string -> string -> Z.

End LogCatalog.

Section CatalogExamples.
Import App.



End CatalogExamples.

(** ** The reader of JSON texts and the grammar *)

Section JsonGrammar.
Import Json.

Lemma hex4_is_hex (a b c d : ascii) (n : N) :
  hex4 a b c d = Some n -> (is_hex a && is_hex b && is_hex c && is_hex d)%bool = true.
Proof.
  unfold hex4, is_hex.
  destruct (hex_value a); [|discriminate]. destruct (hex_value b); [|discriminate].
  destruct (hex_value c); [|discriminate]. destruct (hex_value d); [|discriminate].
  reflexivity.
Qed.

Lemma read_chars_skip (n : nat) :
  forall s acc x r,
    (String.length s <= n)%nat -> read_chars s acc = Some (x, r) -> skip_chars s = Some r.
Proof.
  induction n as [|n IH]; intros s acc x r Hlen;
    destruct s as [|c s]; cbn [read_chars skip_chars]; try discriminate;
    cbn [String.length] in Hlen; [lia|].
  destruct (Ascii.eqb c JS.quote); [now intros [= _ <-]|].
  destruct (Ascii.eqb c backslash).
  - destruct s as [|e r1]; [discriminate|]. cbn [String.length] in Hlen.
    repeat match goal with
           | |- context [Ascii.eqb e ?k] =>
               destruct (Ascii.eqb e k); cbn [orb]; [apply IH; lia|]
           end.
    destruct (Ascii.eqb e "u"); [|discriminate].
    destruct r1 as [|h1 [|h2 [|h3 [|h4 r2]]]]; try discriminate.
    destruct (hex4 h1 h2 h3 h4) as [m|] eqn:Hh; [|discriminate].
    rewrite (hex4_is_hex _ _ _ _ _ Hh).
    destruct (N.ltb m 256); [|discriminate].
    apply IH. cbn [String.length] in Hlen. lia.
  - destruct (N.ltb (JS.code c) 32); [discriminate|]. apply IH. lia.
Qed.

Lemma nzhead_no_zero (d u : Decimal.uint) : Decimal.nzhead d <> Decimal.D0 u.
Proof. induction d; cbn; try discriminate. exact IHd. Qed.

Lemma unorm_zero_head (u : Decimal.uint) :
  Decimal.unorm (Decimal.D0 u) = Decimal.D0 u -> u = Decimal.Nil.
Proof.
  unfold Decimal.unorm. cbn [Decimal.nzhead].
  destruct (Decimal.nzhead u) eqn:E; try (intros H; now injection H);
    intros H; exfalso; apply (nzhead_no_zero u u); rewrite E; exact H.
Qed.

(** The decimal form of a natural number begins with [0] only when it is
    [0]. *)
Lemma nat_toString_zero_head (m : N) (tl : string) :
  JS.nat_toString m = String "0" tl -> tl = "".
Proof.
  rewrite nat_toString_digits.
  destruct (N.to_uint m) as [|u| | | | | | | | |] eqn:E; cbn; try discriminate.
  intros [= <-].
  assert (Hu : u = Decimal.Nil); [|now rewrite Hu].
  apply unorm_zero_head. rewrite <- E.
  transitivity (N.to_uint (N.of_uint (N.to_uint m))).
  - symmetry. apply DecimalN.Unsigned.to_of.
  - now rewrite DecimalN.Unsigned.of_to.
Qed.

Lemma read_digits_none (s r : string) : read_digits s = ("", r) -> s = r.
Proof.
  destruct s as [|c s]; cbn [read_digits]; [now intros [= <-]|].
  destruct (JS.is_digit c); [|now intros [= <-]].
  destruct (read_digits s). discriminate.
Qed.

Lemma read_natural_skip (s rest : string) (n : N) :
  read_natural s = Some (n, rest) ->
  skip_int s = Some rest /\ starts_fraction rest = false.
Proof.
  unfold read_natural. destruct (read_digits s) as [ds rest'] eqn:Hd.
  destruct (NilEmpty.uint_of_string ds) as [d|]; [|discriminate].
  destruct (String.eqb_spec (JS.nat_toString (N.of_uint d)) ds) as [Hc|]; [|discriminate].
  cbn [negb]. destruct (starts_fraction rest') eqn:Hf; [discriminate|].
  intros [= _ <-]. split; [|exact Hf].
  destruct (nat_toString_head (N.of_uint d)) as (c0 & tl & Hs & Hc0).
  rewrite Hs in Hc. subst ds.
  destruct s as [|c s1]; cbn [read_digits] in Hd; [discriminate Hd|].
  destruct (JS.is_digit c); [|discriminate Hd].
  destruct (read_digits s1) as [ds1 r1] eqn:Hd1. injection Hd as -> -> ->.
  unfold skip_int. destruct (Ascii.eqb_spec c0 "0") as [->|_].
  - apply nat_toString_zero_head in Hs. subst tl.
    now rewrite (read_digits_none _ _ Hd1).
  - unfold skip_digits. cbn [read_digits]. now rewrite Hc0, Hd1.
Qed.

Lemma skip_after_number (rest : string) :
  starts_fraction rest = false ->
  skip_fraction rest = Some rest /\ skip_exponent rest = Some rest.
Proof.
  destruct rest as [|c r]; [now split|]. cbn [starts_fraction skip_fraction skip_exponent].
  intros H. apply orb_false_elim in H. destruct H as [H He'].
  apply orb_false_elim in H. destruct H as [Hdot He].
  now rewrite Hdot, He, He'.
Qed.

Lemma read_number_skip (s r : string) (v : value) :
  read_number s = Some (v, r) -> skip_number s = Some r.
Proof.
  unfold read_number, skip_number. destruct s as [|c s0]; [discriminate|].
  destruct (Ascii.eqb c "-").
  - destruct (read_natural s0) as [[n rest]|] eqn:E; [|discriminate]. intros [= _ <-].
    destruct (read_natural_skip _ _ _ E) as [-> Hf].
    destruct (skip_after_number _ Hf) as [-> ->]. reflexivity.
  - destruct (read_natural (String c s0)) as [[n rest]|] eqn:E; [|discriminate].
    intros [= _ <-].
    destruct (read_natural_skip _ _ _ E) as [-> Hf].
    destruct (skip_after_number _ Hf) as [-> ->]. reflexivity.
Qed.

(** What the readers take, the recogniser accepts, and it leaves the same
    text. *)
Lemma readers_follow_the_grammar (fuel : nat) :
  (forall s v r, read_value fuel s = Some (v, r) -> skip_value fuel s = Some r)
  /\ (forall s vs r, read_elements fuel s = Some (vs, r) -> skip_elements fuel s = Some r)
  /\ (forall s kvs r, read_members fuel s = Some (kvs, r) -> skip_members fuel s = Some r).
Proof.
  induction fuel as [|f (IHv & IHe & IHm)]; [repeat split; discriminate|].
  split; [|split].
  - intros s v r. cbn [read_value skip_value].
    destruct (skip_ws s) as [|c r0]; [discriminate|].
    destruct (Ascii.eqb c "n").
    { destruct (expect "ull" r0); [now intros [= _ <-]|discriminate]. }
    destruct (Ascii.eqb c "t").
    { destruct (expect "rue" r0); [now intros [= _ <-]|discriminate]. }
    destruct (Ascii.eqb c "f").
    { destruct (expect "alse" r0); [now intros [= _ <-]|discriminate]. }
    destruct (Ascii.eqb c JS.quote).
    { destruct (read_chars r0 []) as [[x r']|] eqn:E; [|discriminate].
      intros [= _ <-]. exact (read_chars_skip _ _ _ _ _ (le_n _) E). }
    destruct (Ascii.eqb c "[").
    { destruct (after "]" r0); [now intros [= _ <-]|].
      destruct (read_elements f r0) as [[vs r']|] eqn:E; [|discriminate].
      intros [= _ <-]. now apply IHe in E. }
    destruct (Ascii.eqb c "{").
    { destruct (after "}" r0); [now intros [= _ <-]|].
      destruct (read_members f r0) as [[kvs r']|] eqn:E; [|discriminate].
      intros [= _ <-]. now apply IHm in E. }
    apply read_number_skip.
  - intros s vs r. cbn [read_elements skip_elements].
    destruct (read_value f s) as [[v r1]|] eqn:E; [|discriminate].
    rewrite (IHv _ _ _ E).
    destruct (after "," r1) as [r2|].
    + destruct (read_elements f r2) as [[vs' r3]|] eqn:E2; [|discriminate].
      intros [= _ <-]. now apply IHe in E2.
    + destruct (after "]" r1); [now intros [= _ <-]|discriminate].
  - intros s kvs r. cbn [read_members skip_members].
    destruct (after JS.quote s) as [r0|]; [|discriminate].
    destruct (read_chars r0 []) as [[k r1]|] eqn:Ek; [|discriminate].
    rewrite (read_chars_skip _ _ _ _ _ (le_n _) Ek).
    destruct (after ":" r1) as [r2|]; [|discriminate].
    destruct (read_value f r2) as [[v r3]|] eqn:E; [|discriminate].
    rewrite (IHv _ _ _ E).
    destruct (after "," r3) as [r4|].
    + destruct (read_members f r4) as [[kvs' r5]|] eqn:E2; [|discriminate].
      intros [= _ <-]. now apply IHm in E2.
    + destruct (after "}" r3); [now intros [= _ <-]|discriminate].
Qed.

Lemma read_is_json (text : string) (v : value) : read text = Some v -> is_json text = true.
Proof.
  unfold read, is_json.
  destruct (read_value (S (String.length text)) text) as [[v' rest]|] eqn:E; [|discriminate].
  destruct (readers_follow_the_grammar (S (String.length text))) as (Hv & _ & _).
  rewrite (Hv _ _ _ E). now destruct (skip_ws rest).
Qed.

(** The three outcomes of [JSON.parse] follow the grammar: a text has a
    value or is [Beyond] only if it is a JSON text, and it is answered with
    the [SyntaxError] exactly when it is none; a value that is given is the
    one that the reader finds, and its numbers are safe integers. *)
Lemma parse_outcomes_follow_the_grammar (text : string) :
  (forall v, parse text = Parsed v <-> read text = Some v /\ exact v = true)
  /\ (parse text = SyntaxError <-> is_json text = false)
  /\ (parse text = Beyond <->
      is_json text = true /\ forall v, read text = Some v -> exact v = false).
Proof.
  unfold parse. pose proof (read_is_json text) as Hj.
  destruct (read text) as [v0|].
  - specialize (Hj v0 eq_refl). rewrite Hj.
    destruct (exact v0) eqn:Hx; split; [|split| |split].
    + intros v. split; [now intros [= <-]|]. now intros [[= <-] _].
    + split; discriminate.
    + split; [discriminate|]. intros [_ H]. specialize (H v0 eq_refl). congruence.
    + intros v. split; [discriminate|]. intros [[= <-] H]. congruence.
    + split; discriminate.
    + split; [|reflexivity]. intros _. split; [reflexivity|]. now intros v [= <-].
  - clear Hj. destruct (is_json text); split; [|split| |split].
    + intros v. split; [discriminate|]. intros [H _]. discriminate H.
    + split; discriminate.
    + split; [|reflexivity]. intros _. split; [reflexivity|]. discriminate.
    + intros v. split; [discriminate|]. intros [H _]. discriminate H.
    + split; reflexivity.
    + split; [discriminate|]. intros [H _]. discriminate H.
Qed.
End JsonGrammar.
